(** * vocab-cards: the scheduling engine, the record parser and the CSV
      export of [src/App.jsx], embedded and verified.

    Conventions of the embedding.

    - A JavaScript string is a [string]: a sequence of code units, here the
      8-bit ones.
    - A JavaScript number is a binary64 float in the module [Binary64],
      which holds the scheduling step with the arithmetic of the code: its
      rounding, [NaN], the infinities and the signed zeros.  Outside that
      module a number is an exact rational ([Q]), and [interval] and [due],
      which hold integers in the program ([Math.ceil] results,
      [Date.now()] readings, literals), are typed [Z]: the order
      properties of the scheduler are stated on these exact numbers, where
      no rounding is modelled.
    - A value read from JSON (an imported row, the dictionary response) is a
      [jsval]; an object is the list of its property writes, the latest
      write of a key being the one that is read.
    - An exception is the [Throw] of the [result] monad.
    - The host (number printing and parsing, [JSON.parse], the clock, the
      random source, the network) is the class [Host]. *)

From Stdlib Require Import String Ascii List ZArith QArith Qround Qminmax.
From Stdlib Require Import Lia Lqa Bool Arith DecimalString PrimFloat.
Import ListNotations.

Set Warnings "-register-all".
Set Warnings "-inexact-float".

Local Close Scope Q_scope.
Local Open Scope nat_scope.
Local Open Scope string_scope.
Local Open Scope list_scope.

(** ** Exceptions *)

Inductive result (A : Type) : Type :=
| Ok (a : A)
| Throw.

Arguments Ok {A} a.
Arguments Throw {A}.

Definition bind {A B : Type} (m : result A) (k : A -> result B) : result B :=
  match m with
  | Ok a => k a
  | Throw => Throw
  end.

Notation "x <- m ;; k" := (bind m (fun x => k))
  (at level 61, m at next level, right associativity).

(** ** Strings *)

Module Str.

(** The code units below 256 that [String.prototype.trim] and the class
    [\s] treat as white space: TAB, LF, VT, FF, CR, SPACE, NBSP. *)
Definition is_space (c : ascii) : bool :=
  let n := nat_of_ascii c in
  (Nat.leb 9 n && Nat.leb n 13) || Nat.eqb n 32 || Nat.eqb n 160.

Definition LF : ascii := ascii_of_nat 10.
Definition CR : ascii := ascii_of_nat 13.
Definition comma : ascii := ",".

Fixpoint trimStart (s : string) : string :=
  match s with
  | EmptyString => EmptyString
  | String c r => if is_space c then trimStart r else s
  end.

Fixpoint trimEnd (s : string) : string :=
  match s with
  | EmptyString => EmptyString
  | String c r =>
      match trimEnd r with
      | EmptyString => if is_space c then EmptyString else String c EmptyString
      | r' => String c r'
      end
  end.

(** [s.trim()] *)
Definition trim (s : string) : string := trimEnd (trimStart s).

(** Puts [c] in front of the first piece of a split. *)
Definition push (c : ascii) (pieces : list string) : list string :=
  match pieces with
  | [] => [String c EmptyString]
  | p :: ps => String c p :: ps
  end.

(** [s.split(sep)] for a one-unit separator: never the empty list. *)
Fixpoint split (sep : ascii) (s : string) : list string :=
  match s with
  | EmptyString => [EmptyString]
  | String c r =>
      if Ascii.eqb c sep then EmptyString :: split sep r
      else push c (split sep r)
  end.

(** [s.split(/\r?\n/)]: a separator is LF, or CR immediately followed by
    LF. *)
Fixpoint splitLines (s : string) : list string :=
  match s with
  | EmptyString => [EmptyString]
  | String c r =>
      if Ascii.eqb c LF then EmptyString :: splitLines r
      else if Ascii.eqb c CR then
        match r with
        | String d r' =>
            if Ascii.eqb d LF then EmptyString :: splitLines r'
            else push c (splitLines r)
        | EmptyString => push c (splitLines r)
        end
      else push c (splitLines r)
  end.

(** [pieces.join(sep)] on strings. *)
Fixpoint join (sep : string) (pieces : list string) : string :=
  match pieces with
  | [] => EmptyString
  | [p] => p
  | p :: ps => p ++ sep ++ join sep ps
  end.

(** [s.toLowerCase()] on the ASCII letters. *)
Definition lower (c : ascii) : ascii :=
  let n := nat_of_ascii c in
  if Nat.leb 65 n && Nat.leb n 90 then ascii_of_nat (n + 32) else c.

Fixpoint toLowerCase (s : string) : string :=
  match s with
  | EmptyString => EmptyString
  | String c r => String (lower c) (toLowerCase r)
  end.

(** Every code unit of [s] satisfies [p]. *)
Fixpoint all (p : ascii -> bool) (s : string) : bool :=
  match s with
  | EmptyString => true
  | String c r => p c && all p r
  end.

Definition noComma (s : string) : Prop :=
  all (fun c => negb (Ascii.eqb c comma)) s = true.

Definition noLF (s : string) : Prop :=
  all (fun c => negb (Ascii.eqb c LF)) s = true.

Definition noSpace (s : string) : Prop :=
  all (fun c => negb (is_space c)) s = true.

(** A line of a text that [trim] and the line split leave alone. *)
Definition steady (line : string) : Prop :=
  noLF line /\ trimEnd line = line /\ line <> "".

(** [s.endsWith(suffix)] *)
Definition endsWith (s suffix : string) : bool :=
  let n := String.length s in
  let k := String.length suffix in
  Nat.leb k n && String.eqb (substring (n - k) k s) suffix.

End Str.

(** ** JSON values *)

Inductive jsval : Type :=
| JUndefined
| JNull
| JBool (b : bool)
| JNum (q : Q)
| JStr (s : string)
| JArr (items : list jsval)
| JObj (props : list (string * jsval)).

(** [obj[k]] on the property writes of an object: the latest write wins. *)
Fixpoint own (k : string) (props : list (string * jsval)) : option jsval :=
  match props with
  | [] => None
  | (k', v) :: rest =>
      match own k rest with
      | Some later => Some later
      | None => if String.eqb k k' then Some v else None
      end
  end.

Definition prop (k : string) (props : list (string * jsval)) : jsval :=
  match own k props with
  | Some x => x
  | None => JUndefined
  end.

(** [obj[k] = v] on an object literal, for a value [v] that is not an
    object (the rows hold strings).  The name [__proto__] is the accessor
    of [Object.prototype]: its setter stores nothing for such a value, so
    the assignment leaves the object as it is.  Every other name becomes an
    own property. *)
Definition assign (props : list (string * jsval)) (k : string) (v : jsval)
  : list (string * jsval) :=
  if String.eqb k "__proto__" then props else props ++ [(k, v)].

(** ToBoolean *)
Definition truthy (v : jsval) : bool :=
  match v with
  | JUndefined | JNull => false
  | JBool b => b
  | JNum q => negb (Qeq_bool q 0)
  | JStr s => negb (String.eqb s "")
  | JArr _ | JObj _ => true
  end.

(** [a || b]; [b] is looked at only when [a] is falsy. *)
Definition or_else (a b : result jsval) : result jsval :=
  x <- a ;; if truthy x then Ok x else b.

(** [a ?? b] *)
Definition nullish (a b : jsval) : jsval :=
  match a with
  | JUndefined | JNull => b
  | _ => a
  end.

(** [typeof v === 'string'] *)
Definition is_string (v : jsval) : bool :=
  match v with
  | JStr _ => true
  | _ => false
  end.

(** A length as a number. *)
Definition count (n : nat) : Q := inject_Z (Z.of_nat n).

(** [v[k]] for the keys the program reads: a data property of an object,
    [length] and the index [0] of an array or of a string.  Reading a
    property of [undefined] or [null] is a TypeError. *)
Definition get (v : jsval) (k : string) : result jsval :=
  match v with
  | JUndefined | JNull => Throw
  | JBool _ | JNum _ => Ok JUndefined
  | JStr s =>
      if String.eqb k "length" then Ok (JNum (count (String.length s)))
      else if String.eqb k "0" then
        match s with
        | EmptyString => Ok JUndefined
        | String c _ => Ok (JStr (String c EmptyString))
        end
      else Ok JUndefined
  | JArr items =>
      if String.eqb k "length" then Ok (JNum (count (List.length items)))
      else if String.eqb k "0" then Ok (nth 0 items JUndefined)
      else Ok JUndefined
  | JObj props => Ok (prop k props)
  end.

(** [v.find((p) => p[k])]: only an array has a callable [find]. *)
Definition find (v : jsval) (k : string) : result jsval :=
  match v with
  | JArr items =>
      (fix scan (l : list jsval) : result jsval :=
         match l with
         | [] => Ok JUndefined
         | p :: rest =>
             x <- get p k ;; if truthy x then Ok p else scan rest
         end) items
  | _ => Throw
  end.

(** ** The host *)

(** What a [fetch] of the dictionary URL of a word comes to: the request
    fails, or a response arrives with its [ok] flag and the outcome of
    [res.json()] ([None] when the body does not parse). *)
Inductive FetchOutcome : Type :=
| NetworkError
| Response (ok : bool) (body : option jsval).

(** What [file.text()] and [file.name] give for the selected file; [text]
    is [None] when the read is rejected. *)
Record File : Type := mkFile {
  name : string;
  text : option string
}.

Class Host : Type := {
  (** Number::toString *)
  numToString : Q -> string;
  (** StringToNumber, [None] for NaN *)
  stringToNumber : string -> option Q;
  (** [JSON.parse], [None] for a SyntaxError *)
  JSON_parse : string -> option jsval;
  (** the k-th reading of [Date.now()] *)
  clock : nat -> Z;
  (** the k-th draw of [Math.random()] *)
  random : nat -> Q;
  (** the response to the lookup of a word *)
  fetch : string -> FetchOutcome
}.

Section Program.

Context {host : Host}.

(** ToString of a value, as [Array.prototype.join], [String(v)] and the
    method call [v.toString()] on a value that is neither [undefined] nor
    [null] compute it.  An array joins its items with a comma, [undefined]
    and [null] items giving the empty string; an object whose own
    [toString] is JSON data has no callable conversion: TypeError. *)
Fixpoint toStr (v : jsval) : result string :=
  match v with
  | JUndefined => Ok "undefined"
  | JNull => Ok "null"
  | JBool true => Ok "true"
  | JBool false => Ok "false"
  | JNum q => Ok (numToString q)
  | JStr s => Ok s
  | JArr items =>
      pieces <- (fix each (l : list jsval) : result (list string) :=
                   match l with
                   | [] => Ok []
                   | x :: rest =>
                       s <- match x with
                            | JUndefined | JNull => Ok ""
                            | _ => toStr x
                            end ;;
                       ss <- each rest ;;
                       Ok (s :: ss)
                   end) items ;;
      Ok (Str.join "," pieces)
  | JObj props =>
      match own "toString" props with
      | Some _ => Throw
      | None => Ok "[object Object]"
      end
  end.

(** ToNumber, [None] for NaN. *)
Definition toNumber (v : jsval) : result (option Q) :=
  match v with
  | JUndefined => Ok None
  | JNull => Ok (Some 0%Q)
  | JBool true => Ok (Some 1%Q)
  | JBool false => Ok (Some 0%Q)
  | JNum q => Ok (Some q)
  | JStr s => Ok (stringToNumber s)
  | JArr _ | JObj _ => s <- toStr v ;; Ok (stringToNumber s)
  end.

(** [v > 0] *)
Definition positive (v : jsval) : result bool :=
  n <- toNumber v ;;
  Ok match n with
     | Some q => negb (Qle_bool q 0)
     | None => false
     end.

(** [v && v.length > 0] *)
Definition nonempty (v : jsval) : result bool :=
  if truthy v then (len <- get v "length" ;; positive len) else Ok false.

(** *** parseCSV *)

(** [headers.forEach((h, idx) => { obj[h] = (values[idx] || '').trim(); })] *)
Fixpoint fill (obj : list (string * jsval)) (headers values : list string)
  : list (string * jsval) :=
  match headers with
  | [] => obj
  | h :: hs =>
      let cell := match values with
                  | [] => ""
                  | v :: _ => v
                  end in
      fill (assign obj h (JStr (Str.trim cell))) hs (tl values)
  end.

Definition parseCSV (text : string) : list jsval :=
  let lines := Str.splitLines (Str.trim text) in
  let headers := map Str.trim (Str.split Str.comma (hd "" lines)) in
  map (fun line => JObj (fill [] headers (Str.split Str.comma line)))
      (tl lines).

(** *** fetchDictionary *)

Record Entry : Type := mkEntry {
  entry_ipa : jsval;
  entry_audio : jsval;
  entry_meaning : jsval
}.

Definition noEntry : Entry := mkEntry (JStr "") (JStr "") (JStr "").

(** The body of the [try] block. *)
Definition lookup (word : string) : result Entry :=
  match fetch word with
  | NetworkError => Throw
  | Response ok body =>
      if negb ok then Throw else
      data <- match body with
              | Some d => Ok d
              | None => Throw
              end ;;
      entry <- or_else (get data "0") (Ok (JObj [])) ;;
      phonetics <- get entry "phonetics" ;;
      some_phonetics <- nonempty phonetics ;;
      sounds <-
        (if some_phonetics then
           withText <- find phonetics "text" ;;
           withAudio <- find phonetics "audio" ;;
           ipa <- (if truthy withText then
                     t <- get withText "text" ;;
                     Ok (if is_string t then t else JStr "")
                   else Ok (JStr "")) ;;
           audio <- (if truthy withAudio then
                       a <- get withAudio "audio" ;;
                       Ok (if is_string a then a else JStr "")
                     else Ok (JStr "")) ;;
           Ok (ipa, audio)
         else Ok (JStr "", JStr "")) ;;
      meanings <- get entry "meanings" ;;
      some_meanings <- nonempty meanings ;;
      meaning <-
        (if some_meanings then
           first <- get meanings "0" ;;
           defs <- get first "definitions" ;;
           some_defs <- nonempty defs ;;
           if some_defs then
             def0 <- get defs "0" ;;
             definition <- get def0 "definition" ;;
             Ok (if truthy definition then definition else JStr "")
           else Ok (JStr "")
         else Ok (JStr "")) ;;
      Ok (mkEntry (fst sounds) (snd sounds) meaning)
  end.

(** [try { ... } catch (err) { return { ipa: '', audio: '', meaning: '' }; }] *)
Definition fetchDictionary (word : string) : Entry :=
  match lookup word with
  | Ok e => e
  | Throw => noEntry
  end.

(** *** Cards *)

(** The [due] property of a stored card: a timestamp, or one of the three
    ways not to have one. *)
Inductive DueField : Type :=
| DueAbsent
| DueUndefined
| DueNull
| DueAt (t : Z).

Record Card : Type := mkCard {
  id : string;
  word : string;
  ipa : jsval;
  audio : jsval;
  meaning : jsval;
  example : jsval;
  ease : Q;
  interval : Z;
  due : DueField
}.

(** *** pickNextCard *)

(** [c.due ?? 0] *)
Definition dueOrZero (c : Card) : Z :=
  match due c with
  | DueAt t => t
  | DueAbsent | DueUndefined | DueNull => 0%Z
  end.

(** [allCards.filter((c) => (c.due ?? 0) <= now)] *)
Definition dueCards (now : Z) (allCards : list Card) : list Card :=
  filter (fun c => Z.leb (dueOrZero c) now) allCards.

Record Session : Type := mkSession {
  currentCard : option Card;
  showAnswer : bool
}.

(** [now] is the reading of [Date.now()] the call takes. *)
Definition pickNextCard (now : Z) (allCards : list Card) (s : Session)
  : Session :=
  match dueCards now allCards with
  | first :: _ => mkSession (Some first) false
  | [] => mkSession None (showAnswer s)
  end.

(** *** handleFileImport *)

(** The [try] block: the rows of the file, [Throw] when the read or the
    JSON parse fails. *)
Definition readRows (file : File) : result (list jsval) :=
  match text file with
  | None => Throw
  | Some txt =>
      if Str.endsWith (Str.toLowerCase (name file)) ".json" then
        match JSON_parse txt with
        | None => Throw
        | Some (JArr items) => Ok items
        | Some _ => Ok []
        end
      else Ok (parseCSV txt)
  end.

(** [entry.word || entry.Word || entry.term || entry.Term || ''] *)
Definition rawWord (entry : jsval) : result jsval :=
  or_else (or_else (or_else (or_else (get entry "word") (get entry "Word"))
                            (get entry "term"))
                   (get entry "Term"))
          (Ok (JStr "")).

(** [entry[k] || entry[K] || ''] *)
Definition optional (entry : jsval) (k K : string) : result jsval :=
  or_else (or_else (get entry k) (get entry K)) (Ok (JStr "")).

(** The word of a row as the loop resolves it: [rawWord.toString().trim()]. *)
Definition resolvedWord (entry : jsval) : result string :=
  raw <- rawWord entry ;;
  shown <- toStr raw ;;
  Ok (Str.trim shown).

(** The [id] template literal. *)
Definition makeId (now : Z) (rnd : Q) : string :=
  numToString (inject_Z now) ++ "-" ++ numToString rnd.

(** [card.ipa || fetched.ipa], and so on, when auto-complete is on and one
    of the three fields is falsy. *)
Definition complete (autoComplete : bool) (card : Card) : Card :=
  if autoComplete
     && (negb (truthy (ipa card)) || negb (truthy (meaning card))
         || negb (truthy (audio card)))
  then
    let fetched := fetchDictionary (word card) in
    mkCard (id card) (word card)
           (if truthy (ipa card) then ipa card else entry_ipa fetched)
           (if truthy (audio card) then audio card else entry_audio fetched)
           (if truthy (meaning card) then meaning card
            else entry_meaning fetched)
           (example card) (ease card) (interval card) (due card)
  else card.

(** What [card.f || fetched.f] leaves in a field that holds [v]. *)
Definition filled (auto : bool) (v fetched after : jsval) : Prop :=
  (truthy v = true -> after = v)
  /\ (after = v \/ (truthy v = false /\ auto = true /\ after = fetched)).

(** One turn of the loop, with [ticks] readings of the clock and [draws]
    draws of the random source taken so far: the card pushed, if any, and
    the counters after the turn. *)
Definition importRow (autoComplete : bool) (entry : jsval)
  (ticks draws : nat) : result (option Card * (nat * nat)) :=
  word <- resolvedWord entry ;;
  if String.eqb word "" then Ok (None, (ticks, draws)) else
  let id := makeId (clock ticks) (random draws) in
  ipa <- optional entry "ipa" "IPA" ;;
  audio <- optional entry "audio" "Audio" ;;
  meaning <- optional entry "meaning" "Meaning" ;;
  example <- optional entry "example" "Example" ;;
  let card := mkCard id word ipa audio meaning example 2.5%Q 0%Z
                     (DueAt (clock (S ticks))) in
  Ok (Some (complete autoComplete card), (S (S ticks), S draws)).

(** [for (const entry of importedRows) { ... newCards.push(card); }] *)
Fixpoint importRows (autoComplete : bool) (rows : list jsval)
  (ticks draws : nat) : result (list Card) :=
  match rows with
  | [] => Ok []
  | entry :: rest =>
      turn <- importRow autoComplete entry ticks draws ;;
      newCards <- importRows autoComplete rest (fst (snd turn))
                             (snd (snd turn)) ;;
      Ok match fst turn with
         | Some card => card :: newCards
         | None => newCards
         end
  end.

(** The handler on the selected file, if any, from the collection [cards]:
    the collection it leaves.  The readings of the clock and the draws of
    the random source are counted from the start of the run.  [Throw] is
    the rejection of the handler's promise by an exception outside the
    [try]; no [setCards] has run then. *)
Definition handleFileImport (autoComplete : bool) (files : option File)
  (cards : list Card) : result (list Card) :=
  match files with
  | None => Ok cards
  | Some file =>
      match readRows file with
      | Throw => Ok cards
      | Ok importedRows =>
          newCards <- importRows autoComplete importedRows 0 0 ;;
          Ok (cards ++ newCards)
      end
  end.

(** The specification's resolution of a key by priority: the first truthy
    candidate, else the default. *)
Fixpoint firstTruthy (candidates : list jsval) (default : jsval) : jsval :=
  match candidates with
  | [] => default
  | x :: rest => if truthy x then x else firstTruthy rest default
  end.

(** A row as [parseCSV] builds them, and as a JSON object with text members
    is: an object whose property values are strings. *)
Definition textRow (entry : jsval) : Prop :=
  exists props,
    entry = JObj props /\ Forall (fun kv => is_string (snd kv) = true) props.

(** A file the [try] block fails on: its text cannot be read, or it is
    named as JSON and its text does not parse. *)
Definition malformed (file : File) : Prop :=
  text file = None
  \/ exists txt,
       text file = Some txt
       /\ Str.endsWith (Str.toLowerCase (name file)) ".json" = true
       /\ JSON_parse txt = None.

(** *** updateCard *)

(** The object [updated]; [now] is the reading of [Date.now()]. *)
Definition updated (now : Z) (card : Card) (rating : string) : Card :=
  let (ease', interval') :=
    if String.eqb rating "again" then
      (Qmax (ease card - 0.2) 1.3, 1%Z)%Q
    else if String.eqb rating "hard" then
      (ease card + 0.05,
       Z.max 1 (Qceiling (inject_Z (interval card) * 1.2)))%Q
    else if String.eqb rating "good" then
      let e := (ease card + 0.1)%Q in
      (e, if Z.ltb 0 (interval card)
          then Qceiling (inject_Z (interval card) * e)%Q else 2%Z)
    else (ease card, interval card) in
  let due' := (now + interval' * 24 * 60 * 60 * 1000)%Z in
  mkCard (id card) (word card) (ipa card) (audio card) (meaning card)
         (example card) ease' interval' (DueAt due').

(** [setCards((prev) => prev.map((c) => (c.id === card.id ? updated : c)))] *)
Definition updateCard (now : Z) (card : Card) (rating : string)
  (prev : list Card) : list Card :=
  map (fun c => if String.eqb (id c) (id card)
                then updated now card rating else c) prev.

(** The ratings of the three buttons, and a day in milliseconds. *)
Definition ratings : list string := ["again"; "hard"; "good"].

Definition DAY : Z := 86400000.

(** A rating history: the ratings of one card in turn, each with the
    reading of the clock at that rating. *)
Definition replay (history : list (Z * string)) (card : Card) : Card :=
  fold_left (fun c step => updated (fst step) c (snd step)) history card.

(** *** exportCSV *)

(** The text a CSV export can carry in a cell and the import gives back:
    no comma, no line feed, no white space at either end. *)
Definition cleanCell (s : string) : bool :=
  Str.all (fun c => negb (Ascii.eqb c Str.comma) && negb (Ascii.eqb c Str.LF))
          s
  && String.eqb (Str.trim s) s.

Definition cleanText (v : jsval) : bool :=
  match v with
  | JStr s => cleanCell s
  | _ => false
  end.

(** A number that prints without white space. *)
Definition printsPlain (q : Q) : bool :=
  Str.all (fun c => negb (Str.is_space c)) (numToString q).

(** The cards a CSV export and import give back: a clean, non-empty word,
    clean texts in the four optional fields, and numbers that print
    without white space. *)
Definition roundTrips (c : Card) : bool :=
  cleanCell (word c) && negb (String.eqb (word c) "")
  && cleanText (ipa c) && cleanText (audio c)
  && cleanText (meaning c) && cleanText (example c)
  && printsPlain (ease c) && printsPlain (inject_Z (interval c))
  && match due c with
     | DueAt t => printsPlain (inject_Z t)
     | DueAbsent | DueUndefined | DueNull => true
     end.

(** What the export prints in the [due] column. *)
Definition dueText (c : Card) : string :=
  match due c with
  | DueAt t => numToString (inject_Z t)
  | DueAbsent | DueUndefined | DueNull => ""
  end.

(** The row of a card whose optional fields hold the texts [i], [a], [m]
    and [e]. *)
Definition rowText (c : Card) (i a m e : string) : string :=
  word c ++ "," ++ i ++ "," ++ a ++ "," ++ m ++ "," ++ e ++ ","
  ++ numToString (ease c) ++ ","
  ++ numToString (inject_Z (interval c)) ++ "," ++ dueText c.

Definition textOf (v : jsval) : string :=
  match v with
  | JStr s => s
  | _ => ""
  end.

Definition rowOf (c : Card) : string :=
  rowText c (textOf (ipa c)) (textOf (audio c)) (textOf (meaning c))
          (textOf (example c)).

(** The scheduling state of a card fresh from the import. *)
Definition fresh (c : Card) : Prop :=
  ease c = 2.5%Q /\ interval c = 0%Z /\ exists k, due c = DueAt (clock k).

(** The fields of a card that are not scheduling state. *)
Definition content (c : Card) : string * jsval * jsval * jsval * jsval :=
  (word c, ipa c, audio c, meaning c, example c).

Definition headers : list string :=
  ["word"; "ipa"; "audio"; "meaning"; "example"; "ease"; "interval"; "due"].

(** [c[h]] *)
Definition field (c : Card) (h : string) : jsval :=
  if String.eqb h "word" then JStr (word c)
  else if String.eqb h "ipa" then ipa c
  else if String.eqb h "audio" then audio c
  else if String.eqb h "meaning" then meaning c
  else if String.eqb h "example" then example c
  else if String.eqb h "ease" then JNum (ease c)
  else if String.eqb h "interval" then JNum (inject_Z (interval c))
  else if String.eqb h "due" then
    match due c with
    | DueAt t => JNum (inject_Z t)
    | DueNull => JNull
    | DueAbsent | DueUndefined => JUndefined
    end
  else if String.eqb h "id" then JStr (id c)
  else JUndefined.

(** [headers.map((h) => (c[h] ?? '')).join(',')] *)
Definition exportRow (c : Card) : result string :=
  toStr (JArr (map (fun h => nullish (field c h) (JStr "")) headers)).

Fixpoint exportRows (cards : list Card) : result (list string) :=
  match cards with
  | [] => Ok []
  | c :: rest =>
      row <- exportRow c ;;
      rows <- exportRows rest ;;
      Ok (row :: rows)
  end.

(** The text [csv] of lines 264 to 276.  The data URL of line 277,
    [encodeURIComponent(csv)] after a fixed prefix, and the download are
    not modelled; on a text of 8-bit code units the encoding cannot
    fail (a URIError needs a lone surrogate). *)
Definition exportCSV (cards : list Card) : result string :=
  rows <- exportRows cards ;;
  Ok (Str.join (String Str.LF "") (Str.join "," headers :: rows)).

(** *** Predicates of the further properties *)


(** The header names [parseCSV] reads off a text. *)
Definition headersOf (text : string) : list string :=
  map Str.trim (Str.split Str.comma (hd "" (Str.splitLines (Str.trim text)))).

(** The lines of a text after its header line. *)
Definition bodyOf (text : string) : list string :=
  tl (Str.splitLines (Str.trim text)).

(** A property value as [parseCSV] writes them. *)
Definition trimmedText (kv : string * jsval) : Prop :=
  exists s, snd kv = JStr s /\ Str.trim s = s.

(** [h] is the header of column [i] and of no later column. *)
Definition lastAt (hs : list string) (i : nat) (h : string) : Prop :=
  nth_error hs i = Some h
  /\ forall k, i < k -> nth_error hs k <> Some h.

(** A value that is no array and no object. *)
Definition scalar (v : jsval) : Prop :=
  match v with
  | JArr _ | JObj _ => False
  | _ => True
  end.

(** A card whose optional fields are scalars. *)
Definition plainCard (c : Card) : Prop :=
  scalar (ipa c) /\ scalar (audio c) /\ scalar (meaning c)
  /\ scalar (example c).

(** What the export prints for a scalar cell. *)
Definition cellOf (v : jsval) : string :=
  match v with
  | JBool true => "true"
  | JBool false => "false"
  | JNum q => numToString q
  | JStr s => s
  | _ => ""
  end.

(** The cells of the row of a card, in the order of the header. *)
Definition cellsOf (c : Card) : list jsval :=
  map (fun h => nullish (field c h) (JStr "")) headers.

(** The keys the import reads the word of a row from. *)
Definition wordKeys : list string := ["word"; "Word"; "term"; "Term"].

(** The line break of a text written on Windows. *)
Definition CRLF : string := String Str.CR (String Str.LF "").

(** A text that does not begin with white space. *)
Definition startsPlain (s : string) : Prop :=
  match s with
  | EmptyString => False
  | String c _ => Str.is_space c = false
  end.

(** The part of the [try] block of [fetchDictionary] that follows
    [const data = await res.json()]. *)
Definition readEntry (data : jsval) : result Entry :=
  entry <- or_else (get data "0") (Ok (JObj [])) ;;
  phonetics <- get entry "phonetics" ;;
  some_phonetics <- nonempty phonetics ;;
  sounds <-
    (if some_phonetics then
       withText <- find phonetics "text" ;;
       withAudio <- find phonetics "audio" ;;
       ipa <- (if truthy withText then
                 t <- get withText "text" ;;
                 Ok (if is_string t then t else JStr "")
               else Ok (JStr "")) ;;
       audio <- (if truthy withAudio then
                   a <- get withAudio "audio" ;;
                   Ok (if is_string a then a else JStr "")
                 else Ok (JStr "")) ;;
       Ok (ipa, audio)
     else Ok (JStr "", JStr "")) ;;
  meanings <- get entry "meanings" ;;
  some_meanings <- nonempty meanings ;;
  meaning <-
    (if some_meanings then
       first <- get meanings "0" ;;
       defs <- get first "definitions" ;;
       some_defs <- nonempty defs ;;
       if some_defs then
         def0 <- get defs "0" ;;
         definition <- get def0 "definition" ;;
         Ok (if truthy definition then definition else JStr "")
       else Ok (JStr "")
     else Ok (JStr "")) ;;
  Ok (mkEntry (fst sounds) (snd sounds) meaning).

(** The phonetics of an entry are the objects [ps], or there are none. *)
Definition phoneticsOf (e : list (string * jsval))
  (ps : list (list (string * jsval))) : Prop :=
  prop "phonetics" e = JArr (map JObj ps)
  \/ (truthy (prop "phonetics" e) = false /\ ps = []).

(** A card as the import loop pushes it. *)
Definition imported (c : Card) : Prop :=
  word c <> "" /\ Str.trim (word c) = word c /\ fresh c.

(** The first of the objects [items] whose property [k] is truthy. *)
Fixpoint firstHaving (k : string) (items : list (list (string * jsval)))
  : option (list (string * jsval)) :=
  match items with
  | [] => None
  | p :: rest => if truthy (prop k p) then Some p else firstHaving k rest
  end.

(** The text the lookup takes from the phonetics [items] for the key [k]:
    the property [k] of the first item that has one, when it is a string. *)
Definition sound (k : string) (items : list (list (string * jsval)))
  : jsval :=
  match firstHaving k items with
  | Some p => if is_string (prop k p) then prop k p else JStr ""
  | None => JStr ""
  end.

End Program.

(** ** updateCard in binary64

    [updated] above computes on exact numbers: it is the model of the order
    and frame properties, which hold of it as they hold of the program.
    The values the program stores are those of binary64 arithmetic, where
    every [+], [-] and [*] rounds to the nearest double, ties to even.
    This module is [updateCard] in that arithmetic, on the primitive
    floats; a decimal literal denotes the nearest double, as in the
    source. *)

Module Binary64.

Local Open Scope float_scope.

Definition is_nan (x : float) : bool := negb (x =? x).

(** [Math.max(a, b)]: NaN when either is, the greater otherwise; of two
    zeros, [-0] only when both are. *)
Definition max (a b : float) : float :=
  if is_nan a || is_nan b then nan
  else if a <? b then b
  else if b <? a then a
  else if a =? 0 then a + b
  else a.

Definition two52 : float := 0x1p52.

(** [Math.ceil(x)].  From 2^52 on every double is an integer; below,
    adding and subtracting 2^52 rounds to the nearest integer, which is
    then stepped to the one at or above [x].  NaN, the infinities and the
    zeros are returned as they are. *)
Definition ceil (x : float) : float :=
  if is_nan x then x
  else if two52 <=? abs x then x
  else if x =? 0 then x
  else if 0 <? x then
    let r := (x + two52) - two52 in
    if r <? x then r + 1 else r
  else
    let y := - x in
    let r := (y + two52) - two52 in
    - (if y <? r then r - 1 else r).

(** A card with its scheduling numbers as doubles; [due] is [None] when
    the stored card has none. *)
Record Card : Type := mkCard {
  id : string;
  word : string;
  ipa : jsval;
  audio : jsval;
  meaning : jsval;
  example : jsval;
  ease : float;
  interval : float;
  due : option float
}.

(** The object [updated]; [now] is the reading of [Date.now()]. *)
Definition updated (now : float) (card : Card) (rating : string) : Card :=
  let (ease', interval') :=
    if String.eqb rating "again" then
      (max (ease card - 0.2) 1.3, 1)
    else if String.eqb rating "hard" then
      (ease card + 0.05, max 1 (ceil (interval card * 1.2)))
    else if String.eqb rating "good" then
      let e := ease card + 0.1 in
      (e, if 0 <? interval card then ceil (interval card * e) else 2)
    else (ease card, interval card) in
  let due' := now + interval' * 24 * 60 * 60 * 1000 in
  mkCard (id card) (word card) (ipa card) (audio card) (meaning card)
         (example card) ease' interval' (Some due').

(** [setCards((prev) => prev.map((c) => (c.id === card.id ? updated : c)))] *)
Definition updateCard (now : float) (card : Card) (rating : string)
  (prev : list Card) : list Card :=
  map (fun c => if String.eqb (id c) (id card)
                then updated now card rating else c) prev.

(** A rating history, as [replay] above. *)
Definition replay (history : list (float * string)) (card : Card) : Card :=
  fold_left (fun c step => updated (fst step) c (snd step)) history card.

(** A card with the given ease and interval, due at 0. *)
Definition sample (e i : float) : Card :=
  mkCard "id-cat" "cat" (JStr "") (JStr "") (JStr "") (JStr "") e i (Some 0).

End Binary64.

(** ** A host to run the program on

    [printNumber] agrees with Number::toString on the integers and the
    short finite decimals used below, [readNumber] with StringToNumber on
    the decimal integers, [parseJSON] with [JSON.parse] on the two texts it
    accepts and on the text it rejects below.  The dictionary knows the
    word [cat] and answers 404 for every other word. *)

Module Sample.

Definition digit (d : Z) : ascii := ascii_of_nat (48 + Z.to_nat d).

Fixpoint fraction (fuel : nat) (rem den : Z) : string :=
  match fuel with
  | O => ""
  | S fuel' =>
      if Z.eqb rem 0 then ""
      else String (digit (rem * 10 / den))
                  (fraction fuel' ((rem * 10) mod den) den)
  end.

Definition printNumber (q : Q) : string :=
  let d := Zpos (Qden q) in
  let a := Z.abs (Qnum q) in
  (if Z.ltb (Qnum q) 0 then "-" else "")
  ++ NilZero.string_of_int (Z.to_int (a / d))
  ++ (if Z.eqb (a mod d) 0 then "" else "." ++ fraction 17 (a mod d) d).

Definition readNumber (s : string) : option Q :=
  if String.eqb (Str.trim s) "" then Some 0%Q
  else option_map (fun i => inject_Z (Z.of_int i))
                  (NilZero.int_of_string (Str.trim s)).

Definition parseJSON (s : string) : option jsval :=
  if String.eqb s "[]" then Some (JArr [])
  else if String.eqb s "null" then Some JNull
  else None.

Definition catEntry : jsval :=
  JArr [JObj [("word", JStr "cat");
              ("phonetics",
               JArr [JObj [("audio", JStr "")];
                     JObj [("text", JStr "/kat/");
                           ("audio", JStr "https://audio.example/cat.mp3")]]);
              ("meanings",
               JArr [JObj [("partOfSpeech", JStr "noun");
                           ("definitions",
                            JArr [JObj [("definition",
                                         JStr "A small, furry animal")]])]])]].

Definition dictionary (w : string) : FetchOutcome :=
  if String.eqb w "cat" then Response true (Some catEntry)
  else Response false
         (Some (JObj [("title", JStr "No Definitions Found")])).

(** The clock advances by a millisecond at each reading; the draws are
    odd sixteenths. *)
Definition host : Host :=
  Build_Host printNumber readNumber parseJSON
             (fun k => (1700000000000 + Z.of_nat k)%Z)
             (fun k => (Z.of_nat (2 * k + 1) mod 16 # 16)%Q)
             dictionary.

(** The clock stands still and the random source repeats one draw. *)
Definition stillHost : Host :=
  Build_Host printNumber readNumber parseJSON
             (fun _ => 1700000000000%Z)
             (fun _ => (1 # 2)%Q)
             dictionary.

(** No network: every request fails. *)
Definition offlineHost : Host :=
  Build_Host printNumber readNumber parseJSON
             (fun k => (1700000000000 + Z.of_nat k)%Z)
             (fun k => (Z.of_nat (2 * k + 1) mod 16 # 16)%Q)
             (fun _ => NetworkError).

(** A host whose [JSON.parse] also reads the text of an array with a
    [null] in it. *)
Definition parseArray (s : string) : option jsval :=
  if String.eqb s "[1,null]" then Some (JArr [JNum 1; JNull])
  else parseJSON s.

Definition arrayHost : Host :=
  Build_Host printNumber readNumber parseArray
             (fun k => (1700000000000 + Z.of_nat k)%Z)
             (fun k => (Z.of_nat (2 * k + 1) mod 16 # 16)%Q)
             dictionary.

(** A dictionary that answers [kitty] with the entry of [cat] followed by
    a second entry, and [void] with an entry whose first meaning is
    [null]. *)
Definition catFirst : jsval :=
  match catEntry with
  | JArr (e :: _) => e
  | _ => JNull
  end.

Definition widerDictionary (w : string) : FetchOutcome :=
  if String.eqb w "kitty" then
    Response true (Some (JArr [catFirst; JObj [("word", JStr "kitty")]]))
  else if String.eqb w "void" then
    Response true
      (Some (JArr [JObj [("phonetics", JArr [JObj [("text", JStr "/v/")]]);
                         ("meanings", JArr [JNull])]]))
  else dictionary w.

Definition widerHost : Host :=
  Build_Host printNumber readNumber parseJSON
             (fun k => (1700000000000 + Z.of_nat k)%Z)
             (fun k => (Z.of_nat (2 * k + 1) mod 16 # 16)%Q)
             widerDictionary.

(** A list of words with a blank line. *)
Definition deck : string :=
  "Word" ++ String Str.LF " cat " ++ String Str.LF ""
  ++ String Str.LF "dog".

Definition row (w : string) : jsval := JObj [("word", JStr w)].

Definition card (w : string) (m : string) (t : Z) : Card :=
  mkCard (String.append "id-" w) w (JStr "") (JStr "") (JStr m) (JStr "")
         2.5%Q 0%Z (DueAt t).

End Sample.

(** * Splitting, joining and trimming *)

Module StrFacts.

Import Str.

Local Open Scope string_scope.

Lemma all_cons (p : ascii -> bool) (c : ascii) (s : string) :
  all p (String c s) = true <-> p c = true /\ all p s = true.
Proof. cbn. apply andb_true_iff. Qed.

Lemma all_app (p : ascii -> bool) (a b : string) :
  all p (a ++ b) = true <-> all p a = true /\ all p b = true.
Proof.
  induction a as [| c a IH]; cbn; [tauto |].
  rewrite !andb_true_iff, IH. tauto.
Qed.

Lemma all_impl (p q : ascii -> bool) (s : string) :
  (forall c, p c = true -> q c = true) -> all p s = true -> all q s = true.
Proof.
  intros Hpq. induction s as [| c s IH]; cbn; [trivial |].
  rewrite !andb_true_iff. intros [Hc Hs]. auto.
Qed.

Lemma split_clean (a : string) : noComma a -> split comma a = [a].
Proof.
  unfold noComma. induction a as [| c a IH]; [reflexivity |].
  intros H. apply all_cons in H. destruct H as [Hc Ha].
  cbn [split]. apply negb_true_iff in Hc. rewrite Hc, (IH Ha). reflexivity.
Qed.

Lemma split_app (a rest : string) :
  noComma a -> split comma (a ++ String comma rest) = a :: split comma rest.
Proof.
  unfold noComma. induction a as [| c a IH]; intros H.
  - reflexivity.
  - apply all_cons in H. destruct H as [Hc Ha].
    cbn [append split]. apply negb_true_iff in Hc.
    rewrite Hc, (IH Ha). reflexivity.
Qed.

Lemma trimEnd_tail (c : ascii) (a : string) :
  trimEnd (String c a) = String c a -> trimEnd a = a.
Proof.
  cbn [trimEnd]. destruct (trimEnd a) as [| d r] eqn:E.
  - destruct (is_space c); [discriminate |]. now intros [= <-].
  - now intros [= <-].
Qed.

Lemma trimEnd_app (a b : string) :
  trimEnd b = b -> b <> "" -> trimEnd (a ++ b) = a ++ b.
Proof.
  intros Hb Hne. induction a as [| c a IH]; [exact Hb |].
  cbn [append trimEnd]. rewrite IH.
  destruct (a ++ b) eqn:E; [| reflexivity].
  destruct a; cbn in E; [contradiction | discriminate].
Qed.

Lemma trimEnd_cons (c : ascii) (b : string) :
  trimEnd b = b -> b <> "" -> trimEnd (String c b) = String c b.
Proof. intros Hb Hne. apply (trimEnd_app (String c "") b Hb Hne). Qed.

Lemma trimEnd_noSpace (s : string) : noSpace s -> trimEnd s = s.
Proof.
  unfold noSpace. induction s as [| c s IH]; [reflexivity |].
  intros H. apply all_cons in H. destruct H as [Hc Hs].
  cbn [trimEnd]. rewrite (IH Hs). apply negb_true_iff in Hc. rewrite Hc.
  now destruct s.
Qed.

Lemma noSpace_noLF (s : string) : noSpace s -> noLF s.
Proof.
  apply all_impl. intros c Hc.
  destruct (Ascii.eqb_spec c LF) as [-> |]; [discriminate Hc | reflexivity].
Qed.

Lemma splitLines_clean (a : string) : noLF a -> splitLines a = [a].
Proof.
  unfold noLF. induction a as [| c a IH]; [reflexivity |].
  intros H. apply all_cons in H. destruct H as [Hc Ha].
  apply negb_true_iff in Hc. cbn [splitLines]. rewrite Hc, (IH Ha).
  destruct (Ascii.eqb c CR); [| reflexivity].
  destruct a as [| d a]; [reflexivity |].
  apply all_cons in Ha. destruct Ha as [Hd _].
  apply negb_true_iff in Hd. now rewrite Hd.
Qed.

Lemma splitLines_app (a rest : string) :
  noLF a -> trimEnd a = a ->
  splitLines (a ++ String LF rest) = a :: splitLines rest.
Proof.
  unfold noLF. induction a as [| c a IH]; intros H Ht.
  - reflexivity.
  - apply all_cons in H. destruct H as [Hc Ha].
    apply negb_true_iff in Hc.
    pose proof (trimEnd_tail c a Ht) as Ht'.
    cbn [append splitLines]. rewrite Hc, (IH Ha Ht').
    destruct (Ascii.eqb_spec c CR) as [-> | Hcr]; [| reflexivity].
    destruct a as [| d a]; [discriminate Ht |].
    apply all_cons in Ha. destruct Ha as [Hd _].
    apply negb_true_iff in Hd. cbn [append]. now rewrite Hd.
Qed.

Lemma join_lines_cons (l : string) (ls : list string) :
  ls <> [] ->
  join (String LF "") (l :: ls) = l ++ String LF (join (String LF "") ls).
Proof. destruct ls; [contradiction | reflexivity]. Qed.

Lemma trimEnd_join (lines : list string) :
  Forall steady lines -> lines <> [] ->
  trimEnd (join (String LF "") lines) = join (String LF "") lines
  /\ join (String LF "") lines <> "".
Proof.
  induction 1 as [| l ls (_ & Ht & Hne) _ IH]; [contradiction |].
  intros _. destruct ls as [| l' ls].
  - now split.
  - destruct IH as [IHt IHn]; [discriminate |].
    rewrite join_lines_cons by discriminate. split.
    + apply trimEnd_app; [| discriminate]. now apply trimEnd_cons.
    + destruct l; cbn; discriminate.
Qed.

Lemma splitLines_join (lines : list string) :
  Forall steady lines -> lines <> [] ->
  splitLines (join (String LF "") lines) = lines.
Proof.
  induction 1 as [| l ls (Hlf & Ht & _) _ IH]; [contradiction |].
  intros _. destruct ls as [| l' ls].
  - now apply splitLines_clean.
  - rewrite join_lines_cons by discriminate.
    rewrite (splitLines_app _ _ Hlf Ht), IH; [reflexivity | discriminate].
Qed.

End StrFacts.

(** * The scheduler *)

Section Scheduler.

Lemma due_in_days (now i : Z) :
  (now + i * 24 * 60 * 60 * 1000 = now + i * DAY)%Z.
Proof. unfold DAY. lia. Qed.

Lemma updated_again (now : Z) (c : Card) :
  updated now c "again"
  = mkCard (id c) (word c) (ipa c) (audio c) (meaning c) (example c)
           (Qmax (ease c - 0.2) 1.3) 1 (DueAt (now + 1 * DAY)).
Proof.
  unfold updated. simpl (String.eqb _ _). cbv beta iota zeta.
  now rewrite due_in_days.
Qed.

Lemma updated_hard (now : Z) (c : Card) :
  updated now c "hard"
  = let i := Z.max 1 (Qceiling (inject_Z (interval c) * 1.2)) in
    mkCard (id c) (word c) (ipa c) (audio c) (meaning c) (example c)
           (ease c + 0.05) i (DueAt (now + i * DAY)).
Proof.
  unfold updated. simpl (String.eqb _ _). cbv beta iota zeta.
  now rewrite due_in_days.
Qed.

Lemma updated_good (now : Z) (c : Card) :
  updated now c "good"
  = let e := (ease c + 0.1)%Q in
    let i := if Z.ltb 0 (interval c)
             then Qceiling (inject_Z (interval c) * e) else 2%Z in
    mkCard (id c) (word c) (ipa c) (audio c) (meaning c) (example c)
           e i (DueAt (now + i * DAY)).
Proof.
  unfold updated. simpl (String.eqb _ _). cbv beta iota zeta.
  now rewrite due_in_days.
Qed.


Lemma updateCard_replaces (now : Z) (c : Card) (r : string)
  (prev : list Card) :
  In c prev -> In (updated now c r) (updateCard now c r prev).
Proof.
  intros Hin. unfold updateCard. apply in_map_iff.
  exists c. now rewrite String.eqb_refl.
Qed.

Lemma float_differs (x y : float) :
  PrimFloat.eqb x x = true -> PrimFloat.eqb x y = false -> x <> y.
Proof. intros Hx Hxy E. rewrite <- E, Hx in Hxy. discriminate Hxy. Qed.

(** C1, as the code has it.  With every operation that of binary64
    arithmetic, each of the three ratings produces the state of the
    transition table: [again] clamps the ease at 1.3 from [ease - 0.2] and
    sets the interval to 1; [hard] adds 0.05 to the ease and takes
    [max(1, ceil(interval * 1.2))]; [good] adds 0.1 to the ease and takes
    [ceil(interval * ease')] for a positive interval, 2 otherwise; the new
    due time is [now + interval' * 24 * 60 * 60 * 1000], the products taken
    from the left, which for [again] is [now + 86400000]; and that card is
    what [updateCard] stores in place of the rated one.  So [again] takes
    the ease 1.4 to 1.3 and 2.5 to 2.3, [hard] takes the interval 0 to 1
    and 6 to 8; at ease 1.3 and interval 5, [good] stores the interval 8,
    and five [good] on a fresh card store 151. *)
Theorem updateCard_table_binary64 (now : float) (c : Binary64.Card) :
  (Binary64.ease (Binary64.updated now c "again")
   = Binary64.max (Binary64.ease c - 0.2) 1.3
   /\ Binary64.interval (Binary64.updated now c "again") = 1
   /\ Binary64.due (Binary64.updated now c "again")
      = Some (now + 86400000))%float
  /\ (Binary64.ease (Binary64.updated now c "hard")
      = Binary64.ease c + 0.05
      /\ Binary64.interval (Binary64.updated now c "hard")
         = Binary64.max 1 (Binary64.ceil (Binary64.interval c * 1.2)))%float
  /\ (Binary64.ease (Binary64.updated now c "good")
      = Binary64.ease c + 0.1
      /\ Binary64.interval (Binary64.updated now c "good")
         = if 0 <? Binary64.interval c
           then Binary64.ceil
                  (Binary64.interval c
                   * Binary64.ease (Binary64.updated now c "good"))
           else 2)%float
  /\ (forall r, In r ratings ->
        Binary64.due (Binary64.updated now c r)
        = Some (now + Binary64.interval (Binary64.updated now c r)
                      * 24 * 60 * 60 * 1000)%float)
  /\ (forall r prev, In r ratings -> In c prev ->
        In (Binary64.updated now c r) (Binary64.updateCard now c r prev))
  /\ Binary64.ease
       (Binary64.updated now (Binary64.sample 1.4 3) "again") = 1.3%float
  /\ Binary64.ease
       (Binary64.updated now (Binary64.sample 2.5 3) "again") = 2.3%float
  /\ Binary64.interval
       (Binary64.updated now (Binary64.sample 2.5 0) "hard") = 1%float
  /\ Binary64.interval
       (Binary64.updated now (Binary64.sample 2.5 6) "hard") = 8%float
  /\ Binary64.interval
       (Binary64.updated now (Binary64.sample 1.3 5) "good") = 8%float
  /\ Binary64.interval
       (Binary64.replay [(now, "good"); (now, "good"); (now, "good");
                         (now, "good"); (now, "good")]
                        (Binary64.sample 2.5 0)) = 151%float.
Proof.
  repeat match goal with |- _ /\ _ => split end;
    try (unfold Binary64.updated; simpl (String.eqb _ _);
         cbv beta iota zeta; reflexivity).
  - intros r [<- | [<- | [<- | []]]];
      unfold Binary64.updated; simpl (String.eqb _ _);
      cbv beta iota zeta; reflexivity.
  - intros r prev _ Hin. unfold Binary64.updateCard. apply in_map_iff.
    exists c. now rewrite String.eqb_refl.
Qed.

(** C1 fails as stated.  Read with exact numbers: at ease 1.3 and interval
    5, [good] stores the interval 8, where [ceil(5 * (1.3 + 0.1))] is 7.
    Read in binary64, its last clause fails: from the interval
    1000000000000002, [hard] at 1700000000000 stores a due time that is
    not [now + interval' * 86400000], and so does the twenty-ninth [good]
    in a row on a fresh card. *)
Lemma updateCard_table_rounds :
  Binary64.interval (Binary64.updated 0 (Binary64.sample 1.3 5) "good")
  = 8%float
  /\ Qceiling (inject_Z 5 * (1.3 + 0.1))%Q = 7%Z
  /\ 8%float <> 7%float
  /\ Binary64.interval
       (Binary64.updated 1700000000000
          (Binary64.sample 2.5 1000000000000002) "hard")
     = 1200000000000003%float
  /\ Binary64.due
       (Binary64.updated 1700000000000
          (Binary64.sample 2.5 1000000000000002) "hard")
     = Some 1.0368000000170027e+23%float
  /\ (1700000000000 + 1200000000000003 * 86400000
      = 1.0368000000170025e+23)%float
  /\ 1.0368000000170027e+23%float <> 1.0368000000170025e+23%float
  /\ Binary64.due
       (Binary64.replay (repeat (1700000000000%float, "good") 29)
                        (Binary64.sample 2.5 0))
     = Some 1.1379478626019587e+25%float
  /\ (1700000000000
      + Binary64.interval
          (Binary64.replay (repeat (1700000000000, "good") 29)
                           (Binary64.sample 2.5 0)) * 86400000
      = 1.1379478626019585e+25)%float
  /\ 1.1379478626019587e+25%float <> 1.1379478626019585e+25%float.
Proof.
  repeat match goal with |- _ /\ _ => split end;
    try (vm_compute; reflexivity); apply float_differs; reflexivity.
Qed.

(** Scenario 1 of the specification in binary64: the intervals 2, 6 and 1,
    the ease 2.6 after the first [good] and 2.5 again at the end. *)
Example replay_scenario_1_binary64 :
  let fresh := Binary64.sample 2.5 0 in
  let good := (0%float, "good") in
  let again := (0%float, "again") in
  Binary64.interval (Binary64.replay [good] fresh) = 2%float
  /\ Binary64.ease (Binary64.replay [good] fresh) = 2.6%float
  /\ Binary64.interval (Binary64.replay [good; good] fresh) = 6%float
  /\ Binary64.interval (Binary64.replay [good; good; again] fresh) = 1%float
  /\ Binary64.ease (Binary64.replay [good; good; again] fresh) = 2.5%float.
Proof. repeat split. Qed.

(** [Math.ceil] and [Math.max] on some doubles. *)
Example ceil_max_values :
  map Binary64.ceil
      [0.3; 0.5; 1.5; 2.5; -1.5; -2.5; -3.5; 7.0000000000000009; 5;
       0x1p60; infinity; 4503599627370495.5; 5e-324]%float
  = [1; 1; 2; 3; -1; -2; -3; 8; 5; 0x1p60; infinity; 4503599627370496;
     1]%float
  /\ map (fun p => Binary64.max (fst p) (snd p))
         [(1, 2); (2, 1); (1.1, 1.3); (1.3, 1.3)]%float
     = [2; 2; 1.3; 1.3]%float.
Proof. split; reflexivity. Qed.




(** Scenario 1 of the specification: [good], [good], [again] from
    [ease = 2.5], [interval = 0] gives the intervals 2, 6 and 1 and the
    ease 2.5 again. *)
Example replay_scenario_1 :
  let c0 := Sample.card "cat" "" 0 in
  interval (replay [(0%Z, "good")] c0) = 2%Z
  /\ (ease (replay [(0%Z, "good")] c0) == 2.6)%Q
  /\ interval (replay [(0%Z, "good"); (0%Z, "good")] c0) = 6%Z
  /\ interval (replay [(0%Z, "good"); (0%Z, "good"); (0%Z, "again")] c0)
     = 1%Z
  /\ (ease (replay [(0%Z, "good"); (0%Z, "good"); (0%Z, "again")] c0)
      == 2.5)%Q.
Proof. cbv zeta. repeat split; vm_compute; reflexivity. Qed.





(** C5. A rating leaves [id], [word], [ipa], [audio], [meaning] and
    [example] of the card as they were. *)
Theorem updateCard_frame (now : Z) (c : Card) (r : string) :
  In r ratings ->
  id (updated now c r) = id c
  /\ word (updated now c r) = word c
  /\ ipa (updated now c r) = ipa c
  /\ audio (updated now c r) = audio c
  /\ meaning (updated now c r) = meaning c
  /\ example (updated now c r) = example c.
Proof.
  intros [<- | [<- | [<- | []]]];
    rewrite ?updated_again, ?updated_hard, ?updated_good;
    repeat split; reflexivity.
Qed.

Lemma updateCard_frame_witness :
  word (updated 200 (Sample.card "cat" "feline" 100) "good") = "cat"
  /\ meaning (updated 200 (Sample.card "cat" "feline" 100) "good")
     = JStr "feline".
Proof.
  assert (Hr : In "good" ratings) by (cbn; tauto).
  destruct (updateCard_frame 200 (Sample.card "cat" "feline" 100) "good" Hr)
    as (_ & Hw & _ & _ & Hm & _).
  rewrite Hw, Hm. split; reflexivity.
Defined.

Lemma dueCards_skip (now : Z) (before rest : list Card) :
  Forall (fun b => (now < dueOrZero b)%Z) before ->
  dueCards now (before ++ rest) = dueCards now rest.
Proof.
  induction 1 as [| b before Hb _ IH]; [reflexivity |].
  unfold dueCards in *. cbn [app filter].
  destruct (Z.leb_spec (dueOrZero b) now); [lia | exact IH].
Qed.

Lemma dueCards_first (now : Z) (cards : list Card) :
  match dueCards now cards with
  | [] => Forall (fun c => (now < dueOrZero c)%Z) cards
  | c :: _ =>
      exists before after,
        cards = before ++ c :: after
        /\ (dueOrZero c <= now)%Z
        /\ Forall (fun b => (now < dueOrZero b)%Z) before
  end.
Proof.
  induction cards as [| x cards IH]; [constructor |].
  unfold dueCards in *. cbn [filter].
  destruct (Z.leb_spec (dueOrZero x) now) as [Hx | Hx].
  - exists [], cards. repeat split; trivial.
  - destruct (filter _ cards) as [| c rest].
    + now constructor.
    + destruct IH as (before & after & -> & Hc & Hb).
      exists (x :: before), after. repeat split; trivial. now constructor.
Qed.

Lemma pickNextCard_at (now : Z) (before after : list Card) (c : Card)
  (s : Session) :
  (dueOrZero c <= now)%Z ->
  Forall (fun b => (now < dueOrZero b)%Z) before ->
  pickNextCard now (before ++ c :: after) s = mkSession (Some c) false.
Proof.
  intros Hc Hb. unfold pickNextCard. rewrite (dueCards_skip _ _ _ Hb).
  unfold dueCards. cbn [filter].
  destruct (Z.leb_spec (dueOrZero c) now); [reflexivity | lia].
Qed.

(** C4. [pickNextCard] shows the card that comes first in the collection
    among those with [due <= now], whatever their due times, and no card
    when none has [due <= now]. *)
Theorem pickNextCard_first_due (now : Z) (cards : list Card) (s : Session) :
  (forall c,
     currentCard (pickNextCard now cards s) = Some c <->
     exists before after,
       cards = before ++ c :: after
       /\ (dueOrZero c <= now)%Z
       /\ Forall (fun b => (now < dueOrZero b)%Z) before)
  /\ (currentCard (pickNextCard now cards s) = None <->
      Forall (fun c => (now < dueOrZero c)%Z) cards)
  /\ (forall c t, due c = DueAt t -> dueOrZero c = t).
Proof.
  split; [| split].
  - intros c. split.
    + unfold pickNextCard. pose proof (dueCards_first now cards) as H.
      destruct (dueCards now cards) as [| x rest]; cbn; [discriminate |].
      intros [= <-]. exact H.
    + intros (before & after & -> & Hc & Hb).
      now rewrite (pickNextCard_at now before after c s Hc Hb).
  - split.
    + unfold pickNextCard. pose proof (dueCards_first now cards) as H.
      destruct (dueCards now cards) as [| x rest]; cbn;
        [trivial | discriminate].
    + intros Hall. unfold pickNextCard.
      rewrite <- (app_nil_r cards), (dueCards_skip _ _ _ Hall). reflexivity.
  - intros c t Hd. unfold dueOrZero. now rewrite Hd.
Qed.

(** Scenario 3 of the specification: due times 100 and 50 in that order, at
    time 200. *)
Example pickNextCard_scenario_3 :
  currentCard (pickNextCard 200 [Sample.card "first" "" 100;
                                 Sample.card "second" "" 50]
                            (mkSession None true))
  = Some (Sample.card "first" "" 100).
Proof. reflexivity. Qed.

(** C10. A card without a due time (the property absent, [undefined] or
    [null]) counts as due at 0: at every [now >= 0] it is among the due
    cards, some card is shown, and it is the one shown when no card before
    it is due. *)
Theorem pickNextCard_missing_due (now : Z) (cards : list Card) (c : Card)
  (s : Session) :
  In c cards ->
  due c = DueAbsent \/ due c = DueUndefined \/ due c = DueNull ->
  (0 <= now)%Z ->
  dueOrZero c = 0%Z
  /\ In c (dueCards now cards)
  /\ currentCard (pickNextCard now cards s) <> None
  /\ (forall before after,
        cards = before ++ c :: after ->
        Forall (fun b => (now < dueOrZero b)%Z) before ->
        currentCard (pickNextCard now cards s) = Some c).
Proof.
  intros Hin Hdue Hnow.
  assert (H0 : dueOrZero c = 0%Z).
  { unfold dueOrZero. destruct Hdue as [-> | [-> | ->]]; reflexivity. }
  assert (Hmem : In c (dueCards now cards)).
  { unfold dueCards. apply filter_In. split; [exact Hin |].
    rewrite H0. now apply Z.leb_le. }
  repeat split; trivial.
  - unfold pickNextCard. destruct (dueCards now cards); [contradiction |].
    discriminate.
  - intros before after -> Hb.
    rewrite (pickNextCard_at now before after c s);
      [reflexivity | lia | exact Hb].
Qed.

Lemma pickNextCard_missing_due_witness :
  currentCard
    (pickNextCard 5 [Sample.card "later" "" 100;
                     mkCard "id-x" "x" JNull JNull JNull JNull 2.5 0 DueNull]
                  (mkSession None false))
  = Some (mkCard "id-x" "x" JNull JNull JNull JNull 2.5 0 DueNull).
Proof.
  set (x := mkCard "id-x" "x" JNull JNull JNull JNull 2.5 0 DueNull).
  assert (Hin : In x [Sample.card "later" "" 100; x]) by (cbn; tauto).
  assert (Hd : due x = DueAbsent \/ due x = DueUndefined \/ due x = DueNull)
    by (cbn; tauto).
  assert (Hn : (0 <= 5)%Z) by lia.
  destruct (pickNextCard_missing_due 5 _ x (mkSession None false) Hin Hd Hn)
    as (_ & _ & _ & Hfirst).
  apply (Hfirst [Sample.card "later" "" 100] []); [reflexivity |].
  repeat constructor.
Defined.

End Scheduler.

(** * The dictionary lookup and the import *)

Section RecordParser.

Context {host : Host}.

Lemma lookup_caught (w : string) :
  lookup w = Throw -> fetchDictionary w = noEntry.
Proof. unfold fetchDictionary. now intros ->. Qed.

Lemma complete_frame (auto : bool) (c : Card) :
  id (complete auto c) = id c
  /\ word (complete auto c) = word c
  /\ example (complete auto c) = example c
  /\ ease (complete auto c) = ease c
  /\ interval (complete auto c) = interval c
  /\ due (complete auto c) = due c.
Proof.
  unfold complete.
  destruct (auto && _)%bool; cbn; repeat split; reflexivity.
Qed.

Lemma complete_fill (auto : bool) (c : Card) :
  filled auto (ipa c) (entry_ipa (fetchDictionary (word c)))
         (ipa (complete auto c))
  /\ filled auto (audio c) (entry_audio (fetchDictionary (word c)))
            (audio (complete auto c))
  /\ filled auto (meaning c) (entry_meaning (fetchDictionary (word c)))
            (meaning (complete auto c)).
Proof.
  unfold complete, filled.
  destruct auto; cbn [andb];
    destruct (truthy (ipa c)) eqn:Ei, (truthy (meaning c)) eqn:Em,
             (truthy (audio c)) eqn:Ea;
    cbn; rewrite ?Ei, ?Em, ?Ea; intuition congruence.
Qed.

Lemma complete_exact (auto : bool) (c : Card) :
  ipa (complete auto c)
  = (if auto && negb (truthy (ipa c))
     then entry_ipa (fetchDictionary (word c)) else ipa c)
  /\ audio (complete auto c)
     = (if auto && negb (truthy (audio c))
        then entry_audio (fetchDictionary (word c)) else audio c)
  /\ meaning (complete auto c)
     = (if auto && negb (truthy (meaning c))
        then entry_meaning (fetchDictionary (word c)) else meaning c).
Proof.
  unfold complete.
  destruct auto; cbn [andb]; [| repeat split].
  destruct (truthy (ipa c)) eqn:Ei, (truthy (meaning c)) eqn:Em,
           (truthy (audio c)) eqn:Ea;
    cbn; rewrite ?Ei, ?Em, ?Ea; repeat split.
Qed.

Lemma or_else_default (a : result jsval) (v : jsval) :
  or_else a (Ok (JStr "")) = Ok v -> truthy v = true \/ v = JStr "".
Proof.
  unfold or_else, bind. destruct a as [x |]; [| discriminate].
  destruct (truthy x) eqn:Ex; intros [= <-]; auto.
Qed.

Lemma optional_value (entry : jsval) (k K : string) (v : jsval) :
  optional entry k K = Ok v -> truthy v = true \/ v = JStr "".
Proof. apply or_else_default. Qed.

(** C8. The lookup returns an entry whatever happens: a failed request, a
    response that is not [ok], a body that does not parse, an empty list of
    entries and any exception of the [try] block all give the three empty
    strings.  In the import, a field that the row gave (a value other than
    the empty string) is kept; a field that the row left empty holds the
    fetched value when auto-complete is on, and stays empty when it is
    off; no field changes in any other way. *)
Theorem fetchDictionary_failures_and_fill (w : string) :
  (fetch w = NetworkError -> fetchDictionary w = noEntry)
  /\ (forall body, fetch w = Response false body ->
        fetchDictionary w = noEntry)
  /\ (forall ok, fetch w = Response ok None -> fetchDictionary w = noEntry)
  /\ (fetch w = Response true (Some (JArr [])) ->
      fetchDictionary w = noEntry)
  /\ (lookup w = Throw -> fetchDictionary w = noEntry)
  /\ (forall auto entry ticks draws card after,
        importRow auto entry ticks draws = Ok (Some card, after) ->
        exists vi va vm,
          optional entry "ipa" "IPA" = Ok vi
          /\ optional entry "audio" "Audio" = Ok va
          /\ optional entry "meaning" "Meaning" = Ok vm
          /\ (vi <> JStr "" -> ipa card = vi)
          /\ (va <> JStr "" -> audio card = va)
          /\ (vm <> JStr "" -> meaning card = vm)
          /\ (ipa card = vi
              \/ (vi = JStr "" /\ auto = true
                  /\ ipa card = entry_ipa (fetchDictionary (word card))))
          /\ (audio card = va
              \/ (va = JStr "" /\ auto = true
                  /\ audio card = entry_audio (fetchDictionary (word card))))
          /\ (meaning card = vm
              \/ (vm = JStr "" /\ auto = true
                  /\ meaning card
                     = entry_meaning (fetchDictionary (word card))))
          /\ (auto = true -> vi = JStr "" ->
              ipa card = entry_ipa (fetchDictionary (word card)))
          /\ (auto = true -> va = JStr "" ->
              audio card = entry_audio (fetchDictionary (word card)))
          /\ (auto = true -> vm = JStr "" ->
              meaning card = entry_meaning (fetchDictionary (word card)))
          /\ (auto = false ->
              ipa card = vi /\ audio card = va /\ meaning card = vm)).
Proof.
  repeat match goal with |- _ /\ _ => split end.
  - intros E. unfold fetchDictionary, lookup. now rewrite E.
  - intros body E. unfold fetchDictionary, lookup. now rewrite E.
  - intros [|] E; unfold fetchDictionary, lookup; now rewrite E.
  - intros E. unfold fetchDictionary, lookup. rewrite E. reflexivity.
  - apply lookup_caught.
  - intros auto entry ticks draws card after. unfold importRow, bind.
    destruct (resolvedWord entry) as [wd |]; [| discriminate].
    destruct (String.eqb wd ""); [discriminate |].
    destruct (optional entry "ipa" "IPA") as [vi |] eqn:Ei; [| discriminate].
    destruct (optional entry "audio" "Audio") as [va |] eqn:Ea;
      [| discriminate].
    destruct (optional entry "meaning" "Meaning") as [vm |] eqn:Em;
      [| discriminate].
    destruct (optional entry "example" "Example") as [ve |];
      [| discriminate].
    intros [= <- _]. exists vi, va, vm.
    set (c := mkCard _ wd vi va vm ve _ _ _).
    destruct (complete_fill auto c) as ((Ki & Fi) & (Ka & Fa) & (Km & Fm)).
    destruct (complete_exact auto c) as (Xi & Xa & Xm).
    destruct (complete_frame auto c) as (_ & -> & _).
    apply optional_value in Ei, Ea, Em. cbn in *.
    repeat match goal with |- _ /\ _ => split end; trivial.
    + intros Hne. apply Ki. destruct Ei; [assumption | contradiction].
    + intros Hne. apply Ka. destruct Ea; [assumption | contradiction].
    + intros Hne. apply Km. destruct Em; [assumption | contradiction].
    + destruct Fi as [-> | (Hf & -> & ->)]; [now left |].
      right. repeat split. destruct Ei as [Ht | ->]; [congruence | trivial].
    + destruct Fa as [-> | (Hf & -> & ->)]; [now left |].
      right. repeat split. destruct Ea as [Ht | ->]; [congruence | trivial].
    + destruct Fm as [-> | (Hf & -> & ->)]; [now left |].
      right. repeat split. destruct Em as [Ht | ->]; [congruence | trivial].
    + intros -> ->. exact Xi.
    + intros -> ->. exact Xa.
    + intros -> ->. exact Xm.
    + intros ->. now rewrite Xi, Xa, Xm.
Qed.

Lemma or_else_assoc (a b c : result jsval) :
  or_else (or_else a b) c = or_else a (or_else b c).
Proof.
  unfold or_else, bind. destruct a as [x |]; [| reflexivity].
  destruct (truthy x) eqn:Ex; [now rewrite Ex | reflexivity].
Qed.

Lemma or_else_ok (x : jsval) (b : result jsval) :
  or_else (Ok x) b = if truthy x then Ok x else b.
Proof. reflexivity. Qed.

Lemma rawWord_priority (props : list (string * jsval)) :
  rawWord (JObj props)
  = Ok (firstTruthy [prop "word" props; prop "Word" props;
                     prop "term" props; prop "Term" props] (JStr "")).
Proof.
  unfold rawWord. rewrite !or_else_assoc. cbn [get firstTruthy].
  rewrite !or_else_ok.
  destruct (truthy (prop "word" props)); [reflexivity |].
  destruct (truthy (prop "Word" props)); [reflexivity |].
  destruct (truthy (prop "term" props)); [reflexivity |].
  destruct (truthy (prop "Term" props)); reflexivity.
Qed.

Lemma importRow_spec (auto : bool) (entry : jsval) (ticks draws : nat)
  (pushed : option Card) (after : nat * nat) :
  importRow auto entry ticks draws = Ok (pushed, after) ->
  exists w,
    resolvedWord entry = Ok w
    /\ ((w = "" /\ pushed = None /\ after = (ticks, draws))
        \/ (w <> ""
            /\ after = (S (S ticks), S draws)
            /\ exists card,
                 pushed = Some card
                 /\ word card = w
                 /\ id card = makeId (clock ticks) (random draws)
                 /\ ease card = 2.5%Q
                 /\ interval card = 0%Z
                 /\ due card = DueAt (clock (S ticks)))).
Proof.
  unfold importRow, bind.
  destruct (resolvedWord entry) as [w |]; [| discriminate].
  destruct (String.eqb_spec w "") as [-> | Hw].
  - intros [= <- <-]. exists "". split; [reflexivity |]. left. auto.
  - destruct (optional entry "ipa" "IPA"); [| discriminate].
    destruct (optional entry "audio" "Audio"); [| discriminate].
    destruct (optional entry "meaning" "Meaning"); [| discriminate].
    destruct (optional entry "example" "Example"); [| discriminate].
    intros [= <- <-]. exists w. split; [reflexivity |]. right.
    repeat split; trivial. eexists. split; [reflexivity |].
    match goal with |- context [complete auto ?c] =>
      destruct (complete_frame auto c) as (-> & -> & _ & -> & -> & ->)
    end.
    repeat split; reflexivity.
Qed.

Lemma importRows_words (auto : bool) (rows : list jsval) :
  forall ticks draws cards,
    importRows auto rows ticks draws = Ok cards ->
    exists words,
      Forall2 (fun e w => resolvedWord e = Ok w) rows words
      /\ map word cards = filter (fun w => negb (String.eqb w "")) words.
Proof.
  induction rows as [| entry rows IH]; intros ticks draws cards.
  - intros [= <-]. exists []. split; constructor.
  - cbn [importRows]. unfold bind at 1.
    destruct (importRow auto entry ticks draws) as [[pushed after] |] eqn:E;
      [| discriminate].
    unfold bind. cbn [fst snd].
    destruct (importRows auto rows (fst after) (snd after)) as [more |] eqn:R;
      [| discriminate].
    intros [= <-].
    destruct (IH _ _ _ R) as (words & Hall & Hmap).
    destruct (importRow_spec _ _ _ _ _ _ E) as (w & Hw & Hcase).
    exists (w :: words). split; [now constructor |].
    destruct Hcase as [(-> & -> & _) | (Hne & _ & card & -> & <- & _)].
    + exact Hmap.
    + cbn. destruct (String.eqb_spec (word card) ""); [contradiction |].
      cbn. now rewrite Hmap.
Qed.

Lemma importRows_nth (auto : bool) (rows : list jsval) :
  forall ticks draws cards,
    importRows auto rows ticks draws = Ok cards ->
    forall i c,
      nth_error cards i = Some c ->
      id c = makeId (clock (ticks + 2 * i)) (random (draws + i))
      /\ ease c = 2.5%Q
      /\ interval c = 0%Z
      /\ due c = DueAt (clock (ticks + 2 * i + 1)).
Proof.
  induction rows as [| entry rows IH]; intros ticks draws cards.
  - intros [= <-] [| i] c; discriminate.
  - cbn [importRows]. unfold bind at 1.
    destruct (importRow auto entry ticks draws) as [[pushed after] |] eqn:E;
      [| discriminate].
    unfold bind. cbn [fst snd].
    destruct (importRows auto rows (fst after) (snd after)) as [more |] eqn:R;
      [| discriminate].
    intros [= <-] i c.
    destruct (importRow_spec _ _ _ _ _ _ E) as (w & _ & Hcase).
    destruct Hcase
      as [(_ & -> & ->) | (_ & -> & card & -> & _ & Hid & He & Hi & Hd)].
    + apply (IH _ _ _ R).
    + destruct i as [| i]; cbn [nth_error].
      * intros [= <-]. rewrite Hid, He, Hi, Hd.
        replace (ticks + 2 * 0) with ticks by lia.
        replace (draws + 0) with draws by lia.
        replace (ticks + 1) with (S ticks) by lia. auto.
      * intros Hc. destruct (IH _ _ _ R i c Hc) as (Ki & Ke & Kn & Kd).
        cbn [fst snd] in *.
        replace (ticks + 2 * S i) with (S (S ticks) + 2 * i) by lia.
        replace (draws + S i) with (S draws + i) by lia. auto.
Qed.

Lemma own_text (k : string) (props : list (string * jsval)) :
  Forall (fun kv => is_string (snd kv) = true) props ->
  prop k props = JUndefined \/ exists s, prop k props = JStr s.
Proof.
  unfold prop. induction 1 as [| [k' v] props Hv _ IH]; cbn; [now left |].
  destruct (own k props) as [later |]; [exact IH |].
  destruct (String.eqb k k'); [| now left].
  right. cbn in Hv. destruct v; try discriminate. now eexists.
Qed.

Lemma or_else_text (a b : result jsval) :
  (exists x, a = Ok x /\ (x = JUndefined \/ exists s, x = JStr s)) ->
  (exists s, b = Ok (JStr s)) ->
  exists s, or_else a b = Ok (JStr s).
Proof.
  intros (x & -> & Hx) (t & ->). unfold or_else, bind.
  destruct Hx as [-> | (s & ->)]; cbn; [now exists t |].
  destruct (String.eqb s ""); cbn; eauto.
Qed.

Lemma get_text (props : list (string * jsval)) (k : string) :
  Forall (fun kv => is_string (snd kv) = true) props ->
  exists x, get (JObj props) k = Ok x
            /\ (x = JUndefined \/ exists s, x = JStr s).
Proof. intros H. eexists. split; [reflexivity | now apply own_text]. Qed.

Lemma or_else_text_get (props : list (string * jsval)) (k : string)
  (b : result jsval) :
  Forall (fun kv => is_string (snd kv) = true) props ->
  (exists s, b = Ok (JStr s)) ->
  exists s, or_else (get (JObj props) k) b = Ok (JStr s).
Proof. intros H Hb. apply or_else_text; [now apply get_text | exact Hb]. Qed.

Lemma importRow_text (auto : bool) (entry : jsval) (ticks draws : nat) :
  textRow entry -> exists turn, importRow auto entry ticks draws = Ok turn.
Proof.
  intros (props & -> & Hall). unfold importRow, resolvedWord, rawWord, optional.
  rewrite !or_else_assoc.
  destruct (or_else_text_get props "word"
              (or_else (get (JObj props) "Word")
                 (or_else (get (JObj props) "term")
                    (or_else (get (JObj props) "Term") (Ok (JStr "")))))
              Hall) as (raw & ->).
  { repeat (apply or_else_text_get; [exact Hall |]). now eexists. }
  cbn [bind toStr].
  destruct (String.eqb (Str.trim raw) ""); [now eexists |].
  destruct (or_else_text_get props "ipa"
              (or_else (get (JObj props) "IPA") (Ok (JStr ""))) Hall)
    as (vi & ->).
  { apply or_else_text_get; [exact Hall | now eexists]. }
  destruct (or_else_text_get props "audio"
              (or_else (get (JObj props) "Audio") (Ok (JStr ""))) Hall)
    as (va & ->).
  { apply or_else_text_get; [exact Hall | now eexists]. }
  destruct (or_else_text_get props "meaning"
              (or_else (get (JObj props) "Meaning") (Ok (JStr ""))) Hall)
    as (vm & ->).
  { apply or_else_text_get; [exact Hall | now eexists]. }
  destruct (or_else_text_get props "example"
              (or_else (get (JObj props) "Example") (Ok (JStr ""))) Hall)
    as (ve & ->).
  { apply or_else_text_get; [exact Hall | now eexists]. }
  cbn [bind]. now eexists.
Qed.

Lemma importRows_text (auto : bool) (rows : list jsval) :
  Forall textRow rows ->
  forall ticks draws, exists cards, importRows auto rows ticks draws = Ok cards.
Proof.
  induction 1 as [| entry rows He _ IH]; intros ticks draws.
  - now exists [].
  - cbn [importRows].
    destruct (importRow_text auto entry ticks draws He) as (turn & ->).
    cbn [bind].
    destruct (IH (fst (snd turn)) (snd (snd turn))) as (more & ->).
    cbn [bind]. now eexists.
Qed.

Lemma append_cancel (a b c : string) :
  (a ++ b)%string = (a ++ c)%string -> b = c.
Proof.
  induction a as [| x a IH]; cbn; [trivial |].
  intros [= E]. now apply IH.
Qed.

Lemma makeId_same_tick (t t' : Z) (r r' : Q) :
  numToString (inject_Z t) = numToString (inject_Z t') ->
  makeId t r = makeId t' r' <-> numToString r = numToString r'.
Proof.
  intros Et. unfold makeId. rewrite Et. split.
  - intros E. apply append_cancel in E. now apply (append_cancel "-") in E.
  - now intros ->.
Qed.

(** C6, as the code has it.  The word of a row is the first truthy value
    among its keys [word], [Word], [term], [Term], else the empty string; a
    row whose word is empty once trimmed pushes no card and takes no
    reading of the clock or of the random source; the cards pushed carry,
    in the order of the rows, the trimmed words that are not empty; the
    i-th of them has the id rendered from the clock reading and the random
    draw taken for it, [ease = 2.5], [interval = 0] and the next clock
    reading as [due].  Two cards built at clock readings that print alike
    have the same id exactly when their random draws print alike.  Rows
    with text members are always imported; the rows [word=cat] and
    [word=] give the one card [cat]. *)
Theorem importRows_parser (auto : bool) (rows : list jsval)
  (ticks draws : nat) :
  (forall props,
     rawWord (JObj props)
     = Ok (firstTruthy [prop "word" props; prop "Word" props;
                        prop "term" props; prop "Term" props] (JStr "")))
  /\ (Forall textRow rows ->
      exists cards, importRows auto rows ticks draws = Ok cards)
  /\ (forall cards,
        importRows auto rows ticks draws = Ok cards ->
        (exists words,
           Forall2 (fun e w => resolvedWord e = Ok w) rows words
           /\ map word cards
              = filter (fun w => negb (String.eqb w "")) words)
        /\ (forall i c,
              nth_error cards i = Some c ->
              id c = makeId (clock (ticks + 2 * i)) (random (draws + i))
              /\ ease c = 2.5%Q
              /\ interval c = 0%Z
              /\ due c = DueAt (clock (ticks + 2 * i + 1)))
        /\ (forall i j ci cj,
              nth_error cards i = Some ci ->
              nth_error cards j = Some cj ->
              numToString (inject_Z (clock (ticks + 2 * i)))
              = numToString (inject_Z (clock (ticks + 2 * j))) ->
              id ci = id cj <->
              numToString (random (draws + i))
              = numToString (random (draws + j))))
  /\ (exists c,
        importRows auto [JObj [("word", JStr "cat")];
                         JObj [("word", JStr "")]] ticks draws
        = Ok [c]
        /\ word c = "cat").
Proof.
  split; [exact rawWord_priority |].
  split; [intros H; now apply importRows_text |].
  split.
  - intros cards Hrun.
    split; [now apply (importRows_words auto rows ticks draws) |].
    pose proof (importRows_nth auto rows ticks draws cards Hrun) as Hnth.
    split; [exact Hnth |].
    intros i j ci cj Hi Hj Et.
    destruct (Hnth i ci Hi) as (-> & _). destruct (Hnth j cj Hj) as (-> & _).
    now apply makeId_same_tick.
  - eexists. split; [reflexivity |].
    match goal with |- context [complete auto ?c] =>
      destruct (complete_frame auto c) as (_ & -> & _)
    end.
    reflexivity.
Qed.

Lemma readRows_malformed (file : File) :
  malformed file -> readRows file = Throw.
Proof.
  unfold malformed, readRows.
  intros [-> | (txt & -> & -> & ->)]; reflexivity.
Qed.

(** C9. On a malformed file (text unreadable, or JSON text that does not
    parse) the handler returns normally and the collection it leaves is the
    one it found. *)
Theorem handleFileImport_malformed (auto : bool) (file : File)
  (cards : list Card) :
  malformed file -> handleFileImport auto (Some file) cards = Ok cards.
Proof.
  intros Hbad. unfold handleFileImport.
  now rewrite (readRows_malformed file Hbad).
Qed.

End RecordParser.

Lemma handleFileImport_malformed_witness :
  @handleFileImport Sample.host true
    (Some (mkFile "Deck.JSON" (Some "{oops")))
    [Sample.card "cat" "feline" 100]
  = Ok [Sample.card "cat" "feline" 100].
Proof.
  apply (@handleFileImport_malformed Sample.host).
  right. exists "{oops". repeat split; reflexivity.
Defined.

(** * Export and import again *)

Section RoundTrip.

Context {host : Host}.

Import Str StrFacts.

Lemma cleanCell_inv (s : string) :
  cleanCell s = true -> noComma s /\ noLF s /\ trim s = s.
Proof.
  unfold cleanCell. rewrite andb_true_iff, String.eqb_eq.
  intros [Hall Ht]. repeat split; trivial.
  - revert Hall. apply all_impl. intros c H.
    now apply andb_true_iff in H.
  - revert Hall. apply all_impl. intros c H.
    now apply andb_true_iff in H.
Qed.

Lemma cleanText_inv (v : jsval) :
  cleanText v = true -> exists s, v = JStr s /\ cleanCell s = true.
Proof. destruct v; try discriminate. intros H. now eexists. Qed.

Lemma exportRow_text (c : Card) (i a m e : string) :
  ipa c = JStr i -> audio c = JStr a -> meaning c = JStr m ->
  example c = JStr e ->
  exportRow c = Ok (rowText c i a m e).
Proof.
  intros Hi Ha Hm He. unfold exportRow, rowText, dueText, headers.
  cbn [map field String.eqb Ascii.eqb Bool.eqb]. rewrite Hi, Ha, Hm, He.
  destruct (due c); reflexivity.
Qed.

Lemma app_nonempty (a b : string) : b <> "" -> (a ++ b)%string <> "".
Proof. destruct a; cbn; [trivial | discriminate]. Qed.

Lemma trimEnd_after_comma (d : string) :
  trimEnd d = d -> trimEnd (String comma d) = String comma d.
Proof.
  intros Hd. destruct d as [| x d]; [reflexivity |].
  now apply trimEnd_cons.
Qed.

Lemma rowText_steady (c : Card) (i a m e : string) :
  noLF (word c) -> noLF i -> noLF a -> noLF m -> noLF e ->
  noSpace (numToString (ease c)) ->
  noSpace (numToString (inject_Z (interval c))) ->
  noSpace (dueText c) ->
  steady (rowText c i a m e).
Proof.
  intros Hw Hi Ha Hm He Hx Hy Hz.
  apply noSpace_noLF in Hx as Hx'. apply noSpace_noLF in Hy as Hy'.
  apply noSpace_noLF in Hz as Hz'. apply trimEnd_noSpace in Hz.
  unfold steady, rowText. repeat split.
  - unfold noLF in *. cbn [append].
    repeat (rewrite all_app || rewrite all_cons).
    repeat split; trivial.
  - cbn [append].
    repeat (apply trimEnd_app;
            [apply trimEnd_cons; [| apply app_nonempty; discriminate]
            | discriminate]).
    apply trimEnd_app; [| discriminate].
    now apply trimEnd_after_comma.
  - apply app_nonempty. discriminate.
Qed.

Lemma headerLine_steady : steady (join "," headers).
Proof. repeat split. discriminate. Qed.

Lemma trim_export (rows : list string) :
  Forall steady rows ->
  trim (join (String LF "") (join "," headers :: rows))
  = join (String LF "") (join "," headers :: rows).
Proof.
  intros Hrows. unfold trim.
  assert (Hstart : trimStart (join (String LF "") (join "," headers :: rows))
                   = join (String LF "") (join "," headers :: rows)).
  { destruct rows; reflexivity. }
  rewrite Hstart. apply trimEnd_join; [| discriminate].
  constructor; [exact headerLine_steady | exact Hrows].
Qed.

Lemma parseCSV_export (rows : list string) :
  Forall steady rows ->
  parseCSV (join (String LF "") (join "," headers :: rows))
  = map (fun line => JObj (fill [] headers (split comma line))) rows.
Proof.
  intros Hrows. unfold parseCSV.
  rewrite (trim_export rows Hrows), splitLines_join;
    [reflexivity | | discriminate].
  constructor; [exact headerLine_steady | exact Hrows].
Qed.

Lemma split_rowText (c : Card) (i a m e : string) :
  noComma (word c) -> noComma i -> noComma a -> noComma m -> noComma e ->
  exists rest,
    split comma (rowText c i a m e) = word c :: i :: a :: m :: e :: rest.
Proof.
  intros Hw Hi Ha Hm He. unfold rowText. cbn [append].
  eexists. rewrite !split_app by assumption. reflexivity.
Qed.

Lemma fill_headers (w i a m e : string) (rest : list string) :
  exists x y z,
    fill [] headers (w :: i :: a :: m :: e :: rest)
    = [("word", JStr (trim w)); ("ipa", JStr (trim i));
       ("audio", JStr (trim a)); ("meaning", JStr (trim m));
       ("example", JStr (trim e)); ("ease", JStr x);
       ("interval", JStr y); ("due", JStr z)].
Proof. do 3 eexists. reflexivity. Qed.

Lemma optional_parsed (i : string) :
  or_else (or_else (Ok (JStr i)) (Ok JUndefined)) (Ok (JStr ""))
  = Ok (JStr i).
Proof. destruct i; reflexivity. Qed.

Lemma rawWord_parsed (w : string) (x y z d : result jsval) :
  w <> "" ->
  or_else (or_else (or_else (or_else (Ok (JStr w)) x) y) z) d = Ok (JStr w).
Proof. destruct w; [contradiction | reflexivity]. Qed.

Lemma importRow_parsed (auto : bool) (w i a m e x y z : string)
  (ticks draws : nat) :
  w <> "" -> trim w = w ->
  importRow auto
    (JObj [("word", JStr w); ("ipa", JStr i); ("audio", JStr a);
           ("meaning", JStr m); ("example", JStr e); ("ease", JStr x);
           ("interval", JStr y); ("due", JStr z)])
    ticks draws
  = Ok (Some (complete auto
                (mkCard (makeId (clock ticks) (random draws)) w
                        (JStr i) (JStr a) (JStr m) (JStr e) 2.5 0
                        (DueAt (clock (S ticks))))),
        (S (S ticks), S draws)).
Proof.
  intros Hw Ht. unfold importRow, resolvedWord, rawWord, optional.
  cbn [get prop own String.eqb Ascii.eqb Bool.eqb].
  rewrite (rawWord_parsed w _ _ _ _ Hw), !optional_parsed.
  cbn [bind toStr]. rewrite Ht.
  destruct (String.eqb_spec w ""); [contradiction | reflexivity].
Qed.

Lemma complete_content (auto : bool) (c1 c2 : Card) :
  content c1 = content c2 ->
  content (complete auto c1) = content (complete auto c2).
Proof.
  unfold content. intros [= Hw Hi Ha Hm He]. unfold complete.
  rewrite Hw, Hi, Ha, Hm.
  destruct (auto && _)%bool; cbn; congruence.
Qed.

Lemma complete_fresh (auto : bool) (c : Card) :
  fresh c -> fresh (complete auto c).
Proof.
  unfold fresh.
  destruct (complete_frame auto c) as (_ & _ & _ & -> & -> & ->). trivial.
Qed.

(** One card through the export and the import. *)
Lemma roundTrips_row (auto : bool) (c : Card) :
  roundTrips c = true ->
  exportRow c = Ok (rowOf c)
  /\ steady (rowOf c)
  /\ forall ticks draws,
       exists c',
         importRow auto (JObj (fill [] headers (split comma (rowOf c))))
                   ticks draws
         = Ok (Some c', (S (S ticks), S draws))
         /\ content c' = content (complete auto c)
         /\ fresh c'.
Proof.
  unfold roundTrips. rewrite !andb_true_iff, negb_true_iff.
  intros ((((((((Hw & Hne) & Hi) & Ha) & Hm) & He) & Hx) & Hy) & Hz).
  apply cleanCell_inv in Hw. destruct Hw as (Hw1 & Hw2 & Hw3).
  apply String.eqb_neq in Hne.
  apply cleanText_inv in Hi, Ha, Hm, He.
  destruct Hi as (i & Ei & Hi), Ha as (a & Ea & Ha), Hm as (m & Em & Hm),
           He as (e & Ee & He).
  apply cleanCell_inv in Hi, Ha, Hm, He.
  destruct Hi as (Hi1 & Hi2 & Hi3), Ha as (Ha1 & Ha2 & Ha3),
           Hm as (Hm1 & Hm2 & Hm3), He as (He1 & He2 & He3).
  assert (Hd : noSpace (dueText c)).
  { unfold dueText. destruct (due c); trivial; reflexivity. }
  unfold rowOf. rewrite Ei, Ea, Em, Ee. cbn [textOf].
  split; [now apply exportRow_text |].
  split; [now apply rowText_steady |].
  intros ticks draws.
  destruct (split_rowText c i a m e Hw1 Hi1 Ha1 Hm1 He1) as (rest & ->).
  destruct (fill_headers (word c) i a m e rest) as (x & y & z & ->).
  rewrite Hw3, Hi3, Ha3, Hm3, He3.
  rewrite (importRow_parsed auto _ _ _ _ _ _ _ _ ticks draws Hne Hw3).
  eexists. split; [reflexivity |]. split.
  - apply complete_content. unfold content. cbn. congruence.
  - apply complete_fresh. unfold fresh. cbn. eauto.
Qed.

Lemma roundTrips_rows (auto : bool) (cards : list Card) :
  Forall (fun c => roundTrips c = true) cards ->
  exportRows cards = Ok (map rowOf cards)
  /\ Forall steady (map rowOf cards)
  /\ forall ticks draws,
       exists cards',
         importRows auto
           (map (fun line => JObj (fill [] headers (split comma line)))
                (map rowOf cards))
           ticks draws
         = Ok cards'
         /\ map content cards' = map (fun c => content (complete auto c)) cards
         /\ Forall fresh cards'.
Proof.
  induction 1 as [| c cards Hc _ (IHx & IHs & IHi)].
  - repeat split; [constructor |]. intros. exists []. repeat split. constructor.
  - destruct (roundTrips_row auto c Hc) as (Hx & Hs & Hi).
    repeat split.
    + cbn [exportRows map]. now rewrite Hx, IHx.
    + now constructor.
    + intros ticks draws. cbn [map importRows].
      destruct (Hi ticks draws) as (c' & -> & Hc' & Hf).
      cbn [bind fst snd].
      destruct (IHi (S (S ticks)) (S draws)) as (cards' & -> & Hm & Hall).
      cbn [bind]. exists (c' :: cards'). repeat split.
      * cbn [map]. now rewrite Hc', Hm.
      * now constructor.
Qed.

Lemma complete_off (c : Card) : complete false c = c.
Proof. reflexivity. Qed.

(** C7, as the code has it.  The export is the header row
    [word,ipa,audio,meaning,example,ease,interval,due] followed by one
    comma-joined row per card.  For a collection whose cards have a
    non-empty word and, in [word], [ipa], [audio], [meaning] and
    [example], texts without comma, line feed or white space at either
    end, and whose numbers print without white space, importing the export
    appends one card per exported card, in order, whose five content
    fields are those of the original once completed by the dictionary
    (the original's own when auto-complete is off), with fresh scheduling
    fields. *)
Theorem export_import_roundtrip (auto : bool) (prev cards : list Card) :
  Forall (fun c => roundTrips c = true) cards ->
  exists rows csv cards',
    exportRows cards = Ok rows
    /\ List.length rows = List.length cards
    /\ csv = join (String LF "")
               ("word,ipa,audio,meaning,example,ease,interval,due" :: rows)
    /\ exportCSV cards = Ok csv
    /\ handleFileImport auto (Some (mkFile "vocab_cards.csv" (Some csv))) prev
       = Ok (prev ++ cards')
    /\ map content cards' = map (fun c => content (complete auto c)) cards
    /\ (auto = false -> map content cards' = map content cards)
    /\ Forall fresh cards'.
Proof.
  intros Hall.
  destruct (roundTrips_rows auto cards Hall) as (Hx & Hs & Hi).
  destruct (Hi 0 0) as (cards' & Hrun & Hmap & Hfresh).
  exists (map rowOf cards). eexists. exists cards'.
  split; [exact Hx |]. split; [apply length_map |].
  split; [reflexivity |].
  split; [unfold exportCSV; rewrite Hx; reflexivity |].
  split.
  - unfold handleFileImport, readRows. cbn [text name].
    change (endsWith (toLowerCase "vocab_cards.csv") ".json") with false.
    cbv iota.
    change "word,ipa,audio,meaning,example,ease,interval,due"
      with (join "," headers).
    rewrite (parseCSV_export _ Hs), Hrun. reflexivity.
  - split; [exact Hmap |]. split; [| exact Hfresh].
    intros ->. rewrite Hmap. apply map_ext. intros c.
    now rewrite complete_off.
Qed.

End RoundTrip.

Lemma export_import_roundtrip_witness :
  exists csv cards',
    @exportCSV Sample.host [Sample.card "cat" "feline" 100] = Ok csv
    /\ @handleFileImport Sample.host false
         (Some (mkFile "vocab_cards.csv" (Some csv))) []
       = Ok cards'
    /\ map content cards' = map content [Sample.card "cat" "feline" 100].
Proof.
  assert (Hall : Forall (fun c => @roundTrips Sample.host c = true)
                        [Sample.card "cat" "feline" 100]).
  { constructor; [vm_compute; reflexivity | constructor]. }
  destruct (@export_import_roundtrip Sample.host false [] _ Hall)
    as (rows & csv & cards' & _ & _ & _ & Hx & Hi & _ & Hm & _).
  exists csv, cards'. split; [exact Hx |]. split; [exact Hi |].
  now apply Hm.
Defined.

(** C7 fails as stated: a meaning with a comma comes back cut at the
    comma, the rest of it in the example. *)
Lemma export_import_comma :
  exists csv c',
    @exportCSV Sample.host [Sample.card "cat" "small, furry" 100] = Ok csv
    /\ @handleFileImport Sample.host false
         (Some (mkFile "vocab_cards.csv" (Some csv))) []
       = Ok [c']
    /\ meaning (Sample.card "cat" "small, furry" 100) = JStr "small, furry"
    /\ meaning c' = JStr "small"
    /\ example c' = JStr "furry".
Proof. do 2 eexists. repeat split. Qed.

(** Scenario 4 of the specification: the lookup of a word that answers 404
    gives the three empty strings, and the import keeps the card with its
    fields empty. *)
Example import_scenario_4 :
  @fetchDictionary Sample.host "dog" = noEntry
  /\ exists c,
       @importRows Sample.host true [Sample.row "dog"] 0 0 = Ok [c]
       /\ word c = "dog"
       /\ ipa c = JStr "" /\ audio c = JStr "" /\ meaning c = JStr "".
Proof. split; [reflexivity |]. eexists. repeat split. Qed.

(** Auto-complete at work: a row that gives [cat] and a meaning gets the
    transcription and the recording of the dictionary and keeps its
    meaning; with auto-complete off the two fields stay empty. *)
Example import_completes_cat :
  let entry := JObj [("word", JStr "cat"); ("meaning", JStr "feline")] in
  (exists c,
      @importRows Sample.host true [entry] 0 0 = Ok [c]
      /\ ipa c = JStr "/kat/"
      /\ audio c = JStr "https://audio.example/cat.mp3"
      /\ meaning c = JStr "feline")
  /\ (exists c,
        @importRows Sample.host false [entry] 0 0 = Ok [c]
        /\ ipa c = JStr "" /\ audio c = JStr ""
        /\ meaning c = JStr "feline").
Proof. split; eexists; repeat split. Qed.

(** A header [__proto__] stores nothing in the row; the other cells are
    stored under their headers. *)
Example parseCSV_proto_header :
  parseCSV ("word,__proto__,ipa" ++ String Str.LF "cat,x,/kat/")%string
  = [JObj [("word", JStr "cat"); ("ipa", JStr "/kat/")]].
Proof. reflexivity. Qed.

(** C6 fails as stated: when the clock and the random source repeat their
    readings within an import, two cards get one id. *)
Lemma importRows_ids_collide :
  exists c1 c2,
    @importRows Sample.stillHost false [Sample.row "cat"; Sample.row "dog"]
                0 0
    = Ok [c1; c2]
    /\ word c1 = "cat" /\ word c2 = "dog"
    /\ id c1 = id c2.
Proof. do 2 eexists. repeat split. Qed.

(** * Further properties of the scheduler *)

Section SchedulerMore.

Lemma updated_id (now : Z) (c : Card) (r : string) :
  id (updated now c r) = id c.
Proof.
  unfold updated.
  destruct (String.eqb r "again"); [reflexivity |].
  destruct (String.eqb r "hard"); [reflexivity |].
  destruct (String.eqb r "good"); reflexivity.
Qed.


(** X1. A rating never adds, removes or reorders cards: the ids of the
    collection are the same list after [updateCard], and a card whose id is
    not the rated one stays what it was, where it was. *)
Theorem updateCard_keeps_ids (now : Z) (card : Card) (r : string)
  (prev : list Card) :
  map id (updateCard now card r prev) = map id prev
  /\ List.length (updateCard now card r prev) = List.length prev
  /\ (forall i c,
        nth_error prev i = Some c -> id c <> id card ->
        nth_error (updateCard now card r prev) i = Some c).
Proof.
  unfold updateCard. split; [| split].
  - rewrite map_map. apply map_ext. intros c.
    destruct (String.eqb_spec (id c) (id card)) as [E |]; [| reflexivity].
    now rewrite updated_id.
  - apply length_map.
  - intros i c Hc Hne. rewrite nth_error_map, Hc. cbn.
    destruct (String.eqb_spec (id c) (id card)); [contradiction | reflexivity].
Qed.

(** X2. After a rating, all the cards that carry the rated id are one and
    the same card: when two cards share an id, rating one overwrites the
    word, the content and the schedule of the other. *)
Theorem updateCard_merges_same_id (now : Z) (card : Card) (r : string)
  (prev : list Card) (x y : Card) :
  In x (updateCard now card r prev) ->
  In y (updateCard now card r prev) ->
  id x = id card -> id y = id card ->
  x = y /\ word x = word card /\ meaning x = meaning card.
Proof.
  assert (H : forall z, In z (updateCard now card r prev) ->
                        id z = id card -> z = updated now card r).
  { intros z Hz Hid. unfold updateCard in Hz. apply in_map_iff in Hz.
    destruct Hz as (c & Hc & _).
    destruct (String.eqb_spec (id c) (id card)) as [E | E]; [now subst |].
    subst z. contradiction. }
  intros Hx Hy Ex Ey. rewrite (H x Hx Ex), (H y Hy Ey).
  repeat split; unfold updated;
    destruct (String.eqb r "again"), (String.eqb r "hard"),
             (String.eqb r "good"); reflexivity.
Qed.

Lemma updateCard_merges_same_id_witness :
  Forall (fun x => word x = "cat")
    (updateCard 200 (Sample.card "cat" "feline" 100) "good"
       [Sample.card "cat" "feline" 100;
        mkCard "id-cat" "dog" JNull JNull (JStr "canine") JNull
               2.5 0 (DueAt 0)]).
Proof.
  set (twin := mkCard "id-cat" "dog" JNull JNull (JStr "canine") JNull
                      2.5 0 (DueAt 0)).
  apply Forall_forall. intros x Hx.
  assert (Hid : id x = id (Sample.card "cat" "feline" 100)).
  { cbn in Hx. destruct Hx as [<- | [<- | []]]; reflexivity. }
  destruct (updateCard_merges_same_id 200 (Sample.card "cat" "feline" 100)
              "good" [Sample.card "cat" "feline" 100; twin] x x Hx Hx Hid Hid)
    as (_ & Hw & _).
  exact Hw.
Defined.

(** X3. Rating a card whose id no card of the collection carries (a card
    that is no longer stored) leaves the collection as it is. *)
Theorem updateCard_stale (now : Z) (card : Card) (r : string)
  (prev : list Card) :
  (forall c, In c prev -> id c <> id card) ->
  updateCard now card r prev = prev.
Proof.
  intros Hall. unfold updateCard. rewrite <- (map_id prev) at 2.
  apply map_ext_in. intros c Hc.
  destruct (String.eqb_spec (id c) (id card)) as [E |]; [| reflexivity].
  now apply Hall in Hc.
Qed.

Lemma updateCard_stale_witness :
  updateCard 200 (Sample.card "gone" "" 0) "good"
             [Sample.card "cat" "" 100; Sample.card "dog" "" 50]
  = [Sample.card "cat" "" 100; Sample.card "dog" "" 50].
Proof.
  apply updateCard_stale.
  intros c [<- | [<- | []]]; cbn; discriminate.
Defined.










Lemma picked_is_due (now : Z) (cards : list Card) (s : Session) (x : Card) :
  currentCard (pickNextCard now cards s) = Some x ->
  In x (dueCards now cards).
Proof.
  unfold pickNextCard. destruct (dueCards now cards) as [| first rest];
    cbn; [discriminate |].
  intros [= <-]. now left.
Qed.



Lemma dueCards_later (now now' : Z) (cards : list Card) (x : Card) :
  (now <= now')%Z -> In x (dueCards now cards) -> In x (dueCards now' cards).
Proof.
  intros Hle. unfold dueCards. rewrite !filter_In, !Z.leb_le.
  intros [Hin Hd]. split; [exact Hin | lia].
Qed.

(** X7. Due cards stay due: a card that is due at [now] is due at every
    later time, and when a card is shown at [now] a card is shown at every
    later time, the same one or one that comes before it in the
    collection. *)
Theorem pickNextCard_later (now now' : Z) (cards : list Card)
  (s : Session) (c : Card) :
  (now <= now')%Z ->
  currentCard (pickNextCard now cards s) = Some c ->
  In c (dueCards now' cards)
  /\ exists before c' after,
       cards = before ++ c' :: after
       /\ currentCard (pickNextCard now' cards s) = Some c'
       /\ (c' = c \/ In c after).
Proof.
  intros Hle Hc.
  pose proof (picked_is_due _ _ _ _ Hc) as Hdue.
  split; [now apply (dueCards_later now) |].
  unfold pickNextCard in Hc. pose proof (dueCards_first now cards) as H.
  destruct (dueCards now cards) as [| x rest]; [discriminate |].
  cbn in Hc. injection Hc as ->.
  destruct H as (before & after & -> & Hcd & Hb).
  pose proof (dueCards_first now' before) as H'.
  destruct (dueCards now' before) as [| y rest'] eqn:E.
  - exists before, c, after. split; [reflexivity |]. split; [| now left].
    rewrite (pickNextCard_at now' before after c s);
      [reflexivity | lia | exact H'].
  - destruct H' as (b1 & b2 & -> & Hy & Hb1).
    exists b1, y, (b2 ++ c :: after).
    split; [now rewrite <- app_assoc |]. split.
    + rewrite <- app_assoc. cbn [app].
      now rewrite (pickNextCard_at now' b1 (b2 ++ c :: after) y s Hy Hb1).
    + right. apply in_or_app. right. now left.
Qed.

Lemma pickNextCard_later_witness :
  In (Sample.card "b" "" 100)
     (dueCards 300 [Sample.card "a" "" 250; Sample.card "b" "" 100]).
Proof.
  assert (Hle : (200 <= 300)%Z) by lia.
  assert (Hc : currentCard
                 (pickNextCard 200 [Sample.card "a" "" 250;
                                    Sample.card "b" "" 100]
                               (mkSession None false))
               = Some (Sample.card "b" "" 100)) by reflexivity.
  exact (proj1 (pickNextCard_later 200 300 _ _ _ Hle Hc)).
Defined.

(** X8. Cards appended to the collection do not change what is shown while
    a card of the old collection is due; when none is due, what is shown is
    what the appended cards alone would show. *)
Theorem pickNextCard_append (now : Z) (cards more : list Card)
  (s : Session) :
  (currentCard (pickNextCard now cards s) <> None ->
   pickNextCard now (cards ++ more) s = pickNextCard now cards s)
  /\ (currentCard (pickNextCard now cards s) = None ->
      pickNextCard now (cards ++ more) s = pickNextCard now more s).
Proof.
  unfold pickNextCard. pose proof (dueCards_first now cards) as H.
  destruct (dueCards now cards) as [| x rest] eqn:E; cbn; split;
    try congruence; intros _.
  - now rewrite (dueCards_skip now cards more H).
  - unfold dueCards in *. now rewrite filter_app, E.
Qed.

End SchedulerMore.

(** * Further properties of the CSV parser *)

Section ParserMore.

Import Str StrFacts.

Lemma trimStart_head (s : string) :
  match trimStart s with
  | EmptyString => True
  | String c _ => is_space c = false
  end.
Proof.
  induction s as [| c s IH]; cbn; [trivial |].
  destruct (is_space c) eqn:E; [exact IH | exact E].
Qed.

Lemma trimEnd_idempotent (s : string) : trimEnd (trimEnd s) = trimEnd s.
Proof.
  induction s as [| c s IH]; [reflexivity |].
  cbn [trimEnd]. destruct (trimEnd s) as [| d r] eqn:E.
  - destruct (is_space c) eqn:Ec; [reflexivity |].
    cbn. now rewrite Ec.
  - cbn [trimEnd] in *. now rewrite IH.
Qed.

Lemma trimEnd_head (c : ascii) (s : string) :
  is_space c = false -> exists r, trimEnd (String c s) = String c r.
Proof.
  intros Hc. cbn [trimEnd]. destruct (trimEnd s); [| now eexists].
  rewrite Hc. now eexists.
Qed.

Lemma trim_idempotent (s : string) : trim (trim s) = trim s.
Proof.
  unfold trim. pose proof (trimStart_head s) as H.
  destruct (trimStart s) as [| c r]; [reflexivity |].
  destruct (trimEnd_head c r H) as (r' & E).
  assert (Hs : trimStart (trimEnd (String c r)) = trimEnd (String c r)).
  { rewrite E. cbn. now rewrite H. }
  rewrite Hs. apply trimEnd_idempotent.
Qed.

Lemma fill_values (hs : list string) :
  forall obj vs, Forall trimmedText obj -> Forall trimmedText (fill obj hs vs).
Proof.
  induction hs as [| h hs IH]; intros obj vs Hobj; cbn [fill]; [exact Hobj |].
  apply IH. unfold assign. destruct (String.eqb h "__proto__"); [exact Hobj |].
  apply Forall_app. split; [exact Hobj |].
  constructor; [| constructor]. eexists. split; [reflexivity |].
  apply trim_idempotent.
Qed.

Lemma own_last (k k' : string) (v : jsval) (props : list (string * jsval)) :
  own k (props ++ [(k', v)])
  = if String.eqb k k' then Some v else own k props.
Proof.
  induction props as [| [k0 v0] props IH]; cbn [app own].
  - reflexivity.
  - rewrite IH. destruct (String.eqb k k'); [reflexivity |].
    reflexivity.
Qed.

Lemma own_assign_other (k k' : string) (v : jsval)
  (props : list (string * jsval)) :
  k <> k' -> own k (assign props k' v) = own k props.
Proof.
  intros Hne. unfold assign. destruct (String.eqb k' "__proto__");
    [reflexivity |].
  rewrite own_last. now destruct (String.eqb_spec k k').
Qed.

Lemma own_assign_same (k : string) (v : jsval)
  (props : list (string * jsval)) :
  k <> "__proto__" -> own k (assign props k v) = Some v.
Proof.
  intros Hne. unfold assign.
  destruct (String.eqb_spec k "__proto__"); [contradiction |].
  now rewrite own_last, String.eqb_refl.
Qed.

Lemma own_assign_proto (k : string) (v : jsval)
  (props : list (string * jsval)) :
  own "__proto__" (assign props k v) = own "__proto__" props.
Proof.
  unfold assign. destruct (String.eqb_spec k "__proto__") as [-> | Hne];
    [reflexivity |].
  rewrite own_last.
  destruct (String.eqb_spec "__proto__" k) as [<- |]; [contradiction |].
  reflexivity.
Qed.

Lemma fill_own_other (h : string) (hs : list string) :
  forall obj vs, ~ In h hs -> own h (fill obj hs vs) = own h obj.
Proof.
  induction hs as [| h0 hs IH]; intros obj vs Hn; cbn [fill]; [reflexivity |].
  rewrite IH by (intros H; apply Hn; now right).
  apply own_assign_other. intros ->. apply Hn. now left.
Qed.

Lemma fill_other (h : string) (hs : list string) :
  forall obj vs, ~ In h hs -> prop h (fill obj hs vs) = prop h obj.
Proof. intros obj vs Hn. unfold prop. now rewrite fill_own_other. Qed.

Lemma fill_own_proto (hs : list string) :
  forall obj vs, own "__proto__" (fill obj hs vs) = own "__proto__" obj.
Proof.
  induction hs as [| h0 hs IH]; intros obj vs; cbn [fill]; [reflexivity |].
  now rewrite IH, own_assign_proto.
Qed.

Lemma fill_own_header (h : string) (hs : list string) :
  forall obj vs,
    In h hs -> h <> "__proto__" ->
    exists s, own h (fill obj hs vs) = Some (JStr s) /\ trim s = s.
Proof.
  induction hs as [| h0 hs IH]; intros obj vs Hin Hne; [contradiction |].
  cbn [fill]. destruct (in_dec string_dec h hs) as [Hlater | Hlast].
  - now apply IH.
  - destruct Hin as [-> | Hin]; [| contradiction].
    rewrite (fill_own_other h hs _ _ Hlast), (own_assign_same h _ _ Hne).
    eexists. split; [reflexivity | apply trim_idempotent].
Qed.

Lemma fill_own_source (k : string) (hs : list string) :
  forall obj vs x,
    own k (fill obj hs vs) = Some x ->
    own k obj <> None \/ (In k hs /\ k <> "__proto__").
Proof.
  induction hs as [| h0 hs IH]; intros obj vs x Hx; cbn [fill] in Hx.
  - left. now rewrite Hx.
  - destruct (IH _ _ _ Hx) as [Hobj | [Hin Hne]].
    + destruct (String.eqb_spec k h0) as [-> | Hk].
      * destruct (String.eqb_spec h0 "__proto__") as [-> | Hp].
        -- left. now rewrite own_assign_proto in Hobj.
        -- right. split; [now left | exact Hp].
      * left. now rewrite own_assign_other in Hobj.
    + right. split; [now right | exact Hne].
Qed.

Lemma nth_tl (i : nat) (vs : list string) :
  nth i (tl vs) "" = nth (S i) vs "".
Proof. destruct vs; [now destruct i | reflexivity]. Qed.

Lemma fill_cell (hs : list string) :
  forall obj vs i h,
    lastAt hs i h -> h <> "__proto__" ->
    prop h (fill obj hs vs) = JStr (trim (nth i vs "")).
Proof.
  induction hs as [| h0 hs IH]; intros obj vs i h [Hi Hlast] Hne.
  - destruct i; discriminate.
  - cbn [fill]. destruct i as [| i]; cbn [nth_error] in Hi.
    + injection Hi as ->.
      assert (Hnot : ~ In h hs).
      { intros Hin. apply In_nth_error in Hin. destruct Hin as (k & Hk).
        apply (Hlast (S k)); [lia | exact Hk]. }
      rewrite (fill_other h hs _ _ Hnot).
      unfold prop. rewrite (own_assign_same h _ _ Hne).
      now destruct vs.
    + rewrite (IH _ _ i h); [now rewrite nth_tl | | exact Hne].
      split; [exact Hi |]. intros k Hk. apply (Hlast (S k)). lia.
Qed.

Lemma parseCSV_unfold (text : string) :
  parseCSV text
  = map (fun line => JObj (fill [] (headersOf text) (split comma line)))
        (bodyOf text).
Proof. reflexivity. Qed.

(** X9. [parseCSV] gives one row per line after the header and, whatever
    the number of cells on a line, every row has an own property for each
    header name other than [__proto__], holding a string without white
    space at either end; it has no own property under any other name, and
    none under [__proto__]. *)
Theorem parseCSV_rows_shape (text : string) :
  List.length (parseCSV text) = List.length (bodyOf text)
  /\ forall row,
       In row (parseCSV text) ->
       exists props,
         row = JObj props
         /\ (forall h,
               In h (headersOf text) -> h <> "__proto__" ->
               exists s, own h props = Some (JStr s) /\ trim s = s)
         /\ (forall k x,
               own k props = Some x ->
               In k (headersOf text) /\ k <> "__proto__")
         /\ Forall trimmedText props.
Proof.
  rewrite parseCSV_unfold. split; [apply length_map |].
  intros row Hrow. apply in_map_iff in Hrow.
  destruct Hrow as (line & <- & _). eexists. split; [reflexivity |].
  split; [| split].
  - intros h Hin Hne. now apply fill_own_header.
  - intros k x Hx. destruct (fill_own_source _ _ _ _ _ Hx) as [H | H];
      [now contradiction H | exact H].
  - apply fill_values. constructor.
Qed.

(** X10. The cell of a line at the position of a header other than
    [__proto__] is read back, trimmed, under that header; when a header
    name comes several times it is the cell of its last column; a header
    beyond the last cell of a short line reads the empty string. *)
Theorem parseCSV_cell (text : string) (i j : nat) (h line : string) :
  lastAt (headersOf text) i h ->
  h <> "__proto__" ->
  nth_error (bodyOf text) j = Some line ->
  exists row,
    nth_error (parseCSV text) j = Some row
    /\ get row h = Ok (JStr (trim (nth i (split comma line) "")))
    /\ (List.length (split comma line) <= i -> get row h = Ok (JStr "")).
Proof.
  intros Hi Hne Hj. rewrite parseCSV_unfold.
  eexists. split; [rewrite nth_error_map, Hj; reflexivity |].
  cbn [get]. rewrite (fill_cell _ _ _ i h Hi Hne).
  split; [reflexivity |].
  intros Hshort. now rewrite nth_overflow.
Qed.

Lemma parseCSV_cell_witness :
  exists row,
    nth_error (parseCSV ("word,ipa,word,meaning"
                         ++ String LF "cat, /kat/ ,dog")) 0
    = Some row
    /\ get row "word" = Ok (JStr "dog")
    /\ get row "meaning" = Ok (JStr "").
Proof.
  set (text := ("word,ipa,word,meaning"
                ++ String LF "cat, /kat/ ,dog")%string).
  assert (Hw : lastAt (headersOf text) 2 "word").
  { split; [reflexivity |].
    intros [| [| [| [| [| k]]]]] Hk; try lia; cbn; discriminate. }
  assert (Hm : lastAt (headersOf text) 3 "meaning").
  { split; [reflexivity |].
    intros [| [| [| [| [| k]]]]] Hk; try lia; cbn; discriminate. }
  assert (Hj : nth_error (bodyOf text) 0 = Some "cat, /kat/ ,dog")
    by reflexivity.
  assert (Hnw : "word" <> "__proto__") by discriminate.
  assert (Hnm : "meaning" <> "__proto__") by discriminate.
  destruct (parseCSV_cell text 2 0 "word" _ Hw Hnw Hj)
    as (row & Hrow & Hword & _).
  destruct (parseCSV_cell text 3 0 "meaning" _ Hm Hnm Hj)
    as (row' & Hrow' & _ & Hshort).
  exists row. split; [exact Hrow |]. split; [exact Hword |].
  rewrite Hrow in Hrow'. injection Hrow' as <-.
  apply Hshort. cbn. lia.
Defined.

(** X11. A text without a line break once trimmed (an empty file, white
    space only, or a header line alone) has no rows. *)
Theorem parseCSV_header_only (text : string) :
  noLF (trim text) -> parseCSV text = [].
Proof.
  intros H. rewrite parseCSV_unfold. unfold bodyOf.
  now rewrite (splitLines_clean _ H).
Qed.

Lemma parseCSV_header_only_witness :
  parseCSV ("  word,ipa,meaning " ++ String LF "") = [].
Proof. apply parseCSV_header_only. reflexivity. Defined.

Lemma splitLines_app_crlf (a rest : string) :
  noLF a -> trimEnd a = a ->
  splitLines (a ++ String CR (String LF rest))%string
  = a :: splitLines rest.
Proof.
  unfold noLF. induction a as [| c a IH]; intros H Ht.
  - reflexivity.
  - apply all_cons in H. destruct H as [Hc Ha].
    apply negb_true_iff in Hc.
    pose proof (trimEnd_tail c a Ht) as Ht'.
    cbn [append splitLines]. rewrite Hc, (IH Ha Ht').
    destruct (Ascii.eqb_spec c CR) as [-> | Hcr]; [| reflexivity].
    destruct a as [| d a]; [discriminate Ht |].
    apply all_cons in Ha. destruct Ha as [Hd _].
    apply negb_true_iff in Hd. cbn [append]. now rewrite Hd.
Qed.

Lemma join_crlf_cons (l : string) (ls : list string) :
  ls <> [] ->
  join CRLF (l :: ls)
  = (l ++ String CR (String LF (join CRLF ls)))%string.
Proof. destruct ls; [contradiction | reflexivity]. Qed.

Lemma trimEnd_join_crlf (lines : list string) :
  Forall steady lines -> lines <> [] ->
  trimEnd (join CRLF lines) = join CRLF lines /\ join CRLF lines <> "".
Proof.
  induction 1 as [| l ls (_ & Ht & Hne) _ IH]; [contradiction |].
  intros _. destruct ls as [| l' ls].
  - now split.
  - destruct IH as [IHt IHn]; [discriminate |].
    rewrite join_crlf_cons by discriminate. split.
    + apply trimEnd_app; [| discriminate].
      apply trimEnd_cons; [| discriminate]. now apply trimEnd_cons.
    + destruct l; cbn; discriminate.
Qed.

Lemma splitLines_join_crlf (lines : list string) :
  Forall steady lines -> lines <> [] ->
  splitLines (join CRLF lines) = lines.
Proof.
  induction 1 as [| l ls (Hlf & Ht & _) _ IH]; [contradiction |].
  intros _. destruct ls as [| l' ls].
  - now apply splitLines_clean.
  - rewrite join_crlf_cons by discriminate.
    rewrite (splitLines_app_crlf _ _ Hlf Ht), IH;
      [reflexivity | discriminate].
Qed.

Lemma trimStart_join (sep : string) (lines : list string) :
  startsPlain (hd "" lines) ->
  trimStart (join sep lines) = join sep lines.
Proof.
  destruct lines as [| l ls]; [contradiction |].
  destruct l as [| c l]; [contradiction |].
  cbn [hd startsPlain]. intros Hc.
  destruct ls; cbn [join append trimStart]; now rewrite Hc.
Qed.

(** X12. Windows and Unix line ends parse alike: for lines that are not
    empty, hold no line feed and end without white space, the first
    beginning without white space, the text that joins them by CR LF has
    the rows of the text that joins them by LF. *)
Theorem parseCSV_crlf (lines : list string) :
  Forall steady lines -> startsPlain (hd "" lines) ->
  parseCSV (join CRLF lines) = parseCSV (join (String LF "") lines)
  /\ List.length (parseCSV (join CRLF lines)) = pred (List.length lines).
Proof.
  intros Hs Hp.
  assert (Hne : lines <> [])
    by (destruct lines; [contradiction | discriminate]).
  assert (E1 : splitLines (trim (join CRLF lines)) = lines).
  { unfold trim. rewrite (trimStart_join _ _ Hp).
    rewrite (proj1 (trimEnd_join_crlf lines Hs Hne)).
    now apply splitLines_join_crlf. }
  assert (E2 : splitLines (trim (join (String LF "") lines)) = lines).
  { unfold trim. rewrite (trimStart_join _ _ Hp).
    rewrite (proj1 (trimEnd_join lines Hs Hne)).
    now apply splitLines_join. }
  unfold parseCSV. rewrite E1, E2. split; [reflexivity |].
  rewrite length_map. now destruct lines.
Qed.

Lemma parseCSV_crlf_witness :
  parseCSV (join CRLF ["word,meaning"; "cat,feline"; "dog"])
  = [JObj [("word", JStr "cat"); ("meaning", JStr "feline")];
     JObj [("word", JStr "dog"); ("meaning", JStr "")]].
Proof.
  assert (Hs : Forall steady ["word,meaning"; "cat,feline"; "dog"]).
  { repeat constructor; discriminate. }
  assert (Hp : startsPlain (hd "" ["word,meaning"; "cat,feline"; "dog"]))
    by reflexivity.
  rewrite (proj1 (parseCSV_crlf _ Hs Hp)). reflexivity.
Defined.

End ParserMore.

(** * Further properties of the import *)

Section ImportMore.

Context {host : Host}.

Import Str StrFacts.

Lemma parseCSV_textRows (txt : string) : Forall textRow (parseCSV txt).
Proof.
  rewrite parseCSV_unfold. apply Forall_forall. intros row Hrow.
  apply in_map_iff in Hrow. destruct Hrow as (line & <- & _).
  eexists. split; [reflexivity |].
  assert (H : Forall trimmedText
                (fill [] (headersOf txt) (split comma line)))
    by (apply fill_values; constructor).
  revert H. apply Forall_impl. intros kv (s & -> & _). reflexivity.
Qed.

Lemma resolvedWord_trimmed (entry : jsval) (w : string) :
  resolvedWord entry = Ok w -> trim w = w.
Proof.
  unfold resolvedWord, bind.
  destruct (rawWord entry) as [raw |]; [| discriminate].
  destruct (toStr raw) as [shown |]; [| discriminate].
  intros [= <-]. apply trim_idempotent.
Qed.

Lemma importRows_imported (auto : bool) (rows : list jsval) :
  forall ticks draws cards,
    importRows auto rows ticks draws = Ok cards ->
    Forall imported cards /\ List.length cards <= List.length rows.
Proof.
  induction rows as [| entry rows IH]; intros ticks draws cards.
  - intros [= <-]. split; [constructor | reflexivity].
  - cbn [importRows]. unfold bind at 1.
    destruct (importRow auto entry ticks draws) as [[pushed after] |] eqn:E;
      [| discriminate].
    unfold bind. cbn [fst snd].
    destruct (importRows auto rows (fst after) (snd after)) as [more |] eqn:R;
      [| discriminate].
    intros [= <-]. destruct (IH _ _ _ R) as [Hall Hlen].
    destruct (importRow_spec _ _ _ _ _ _ E) as (w & Hw & Hcase).
    destruct Hcase
      as [(_ & -> & _) | (Hne & _ & card & -> & Ew & _ & He & Hi & Hd)].
    + split; [exact Hall | cbn; lia].
    + split; [| cbn; lia]. constructor; [| exact Hall].
      unfold imported, fresh. rewrite Ew.
      split; [exact Hne |].
      split; [now apply (resolvedWord_trimmed entry) |].
      split; [exact He |]. split; [exact Hi |].
      exists (S ticks). exact Hd.
Qed.

Lemma handleFileImport_inv (auto : bool) (files : option File)
  (cards cards' : list Card) :
  handleFileImport auto files cards = Ok cards' ->
  cards' = cards
  \/ exists file rows newCards,
       files = Some file
       /\ readRows file = Ok rows
       /\ importRows auto rows 0 0 = Ok newCards
       /\ cards' = cards ++ newCards.
Proof.
  unfold handleFileImport.
  destruct files as [file |]; [| intros [= <-]; now left].
  destruct (readRows file) as [rows |] eqn:E; [| intros [= <-]; now left].
  unfold bind. destruct (importRows auto rows 0 0) as [newCards |] eqn:R;
    [| discriminate].
  intros [= <-]. right. now exists file, rows, newCards.
Qed.

(** X13. An import only appends: when the handler returns, the collection
    it leaves is the one it found followed by the new cards, at most one
    per row of the file, each with a word that is not empty and has no
    white space at either end, [ease = 2.5], [interval = 0] and a reading
    of the clock as [due]. *)
Theorem handleFileImport_appends (auto : bool) (files : option File)
  (cards cards' : list Card) :
  handleFileImport auto files cards = Ok cards' ->
  exists newCards,
    cards' = cards ++ newCards
    /\ Forall imported newCards
    /\ (forall file rows,
          files = Some file -> readRows file = Ok rows ->
          List.length newCards <= List.length rows).
Proof.
  intros H. destruct (handleFileImport_inv _ _ _ _ H)
    as [-> | (file & rows & newCards & -> & Hr & Hi & ->)].
  - exists []. rewrite app_nil_r. repeat split; [constructor |].
    intros. cbn. lia.
  - exists newCards. destruct (importRows_imported _ _ _ _ _ Hi) as [Ha Hl].
    repeat split; trivial.
    intros file' rows' [= <-] Hr'. rewrite Hr in Hr'. now injection Hr' as <-.
Qed.

(** X14. A file that is read and not named as JSON is always imported: the
    rows of [parseCSV] never make the loop throw, so the handler returns
    the collection with new cards appended, at most one per line after the
    header. *)
Theorem handleFileImport_csv_total (auto : bool) (file : File)
  (txt : string) (cards : list Card) :
  text file = Some txt ->
  endsWith (toLowerCase (name file)) ".json" = false ->
  exists newCards,
    handleFileImport auto (Some file) cards = Ok (cards ++ newCards)
    /\ List.length newCards <= List.length (bodyOf txt).
Proof.
  intros Ht Hn. unfold handleFileImport, readRows. rewrite Ht, Hn.
  destruct (importRows_text auto (parseCSV txt) (parseCSV_textRows txt) 0 0)
    as (newCards & E).
  rewrite E. exists newCards. split; [reflexivity |].
  destruct (importRows_imported _ _ _ _ _ E) as [_ Hl].
  now rewrite parseCSV_unfold, length_map in Hl.
Qed.

(** X15. A JSON file whose content parses to something other than an array
    (an object, a string, [null]) imports nothing: the handler returns the
    collection it found. *)
Theorem handleFileImport_json_not_array (auto : bool) (file : File)
  (txt : string) (data : jsval) (cards : list Card) :
  text file = Some txt ->
  endsWith (toLowerCase (name file)) ".json" = true ->
  JSON_parse txt = Some data ->
  (forall items, data <> JArr items) ->
  handleFileImport auto (Some file) cards = Ok cards.
Proof.
  intros Ht Hn Hp Hna. unfold handleFileImport, readRows.
  rewrite Ht, Hn, Hp.
  destruct data; try (cbn; now rewrite app_nil_r).
  now destruct (Hna items).
Qed.

Lemma importRow_null (auto : bool) (entry : jsval) (ticks draws : nat) :
  entry = JNull \/ entry = JUndefined ->
  importRow auto entry ticks draws = Throw.
Proof. intros [-> | ->]; reflexivity. Qed.

Lemma importRows_null (auto : bool) (rows : list jsval) :
  In JNull rows \/ In JUndefined rows ->
  forall ticks draws, importRows auto rows ticks draws = Throw.
Proof.
  induction rows as [| entry rows IH]; intros Hin ticks draws.
  - destruct Hin as [[] | []].
  - cbn [importRows].
    destruct (importRow auto entry ticks draws) as [turn |] eqn:E;
      [| reflexivity].
    cbn [bind]. rewrite IH; [reflexivity |].
    destruct Hin as [[-> | Hin] | [-> | Hin]]; auto;
      rewrite importRow_null in E; auto; discriminate.
Qed.

(** X16. One [null] among the rows of a JSON array makes the loop throw
    outside the [try]: the handler is rejected and no card of the file is
    added, not even those of the rows before it. *)
Theorem handleFileImport_null_row (auto : bool) (file : File)
  (txt : string) (items : list jsval) (cards : list Card) :
  text file = Some txt ->
  endsWith (toLowerCase (name file)) ".json" = true ->
  JSON_parse txt = Some (JArr items) ->
  In JNull items ->
  handleFileImport auto (Some file) cards = Throw
  /\ forall ticks draws, importRows auto items ticks draws = Throw.
Proof.
  intros Ht Hn Hp Hin. unfold handleFileImport, readRows.
  rewrite Ht, Hn, Hp.
  assert (H : forall ticks draws, importRows auto items ticks draws = Throw)
    by (apply importRows_null; now left).
  now rewrite H.
Qed.

Lemma complete_miss (c : Card) :
  fetchDictionary (word c) = noEntry ->
  (truthy (ipa c) = true \/ ipa c = JStr "") ->
  (truthy (audio c) = true \/ audio c = JStr "") ->
  (truthy (meaning c) = true \/ meaning c = JStr "") ->
  complete true c = c.
Proof.
  intros Hf Hi Ha Hm. unfold complete. rewrite Hf. destruct c. cbn in *.
  destruct Hi as [-> | ->], Ha as [-> | ->], Hm as [-> | ->]; reflexivity.
Qed.

Lemma importRow_offline (entry : jsval) (ticks draws : nat) :
  (forall w, fetchDictionary w = noEntry) ->
  importRow true entry ticks draws = importRow false entry ticks draws.
Proof.
  intros Hoff. unfold importRow, bind.
  destruct (resolvedWord entry) as [w |]; [| reflexivity].
  destruct (String.eqb w ""); [reflexivity |].
  destruct (optional entry "ipa" "IPA") as [vi |] eqn:Ei; [| reflexivity].
  destruct (optional entry "audio" "Audio") as [va |] eqn:Ea;
    [| reflexivity].
  destruct (optional entry "meaning" "Meaning") as [vm |] eqn:Em;
    [| reflexivity].
  destruct (optional entry "example" "Example") as [ve |]; [| reflexivity].
  apply optional_value in Ei, Ea, Em.
  rewrite complete_miss; [reflexivity | apply Hoff | | |]; assumption.
Qed.

(** X17. When every lookup comes back empty (no network, or a dictionary
    that knows none of the words), an import with auto-complete on gives
    the cards of the import with auto-complete off. *)
Theorem importRows_offline (rows : list jsval) (ticks draws : nat) :
  (forall w, fetchDictionary w = noEntry) ->
  importRows true rows ticks draws = importRows false rows ticks draws.
Proof.
  intros Hoff. revert ticks draws.
  induction rows as [| entry rows IH]; intros ticks draws; [reflexivity |].
  cbn [importRows]. rewrite (importRow_offline entry ticks draws Hoff).
  destruct (importRow false entry ticks draws) as [turn |]; [| reflexivity].
  cbn [bind]. now rewrite IH.
Qed.

(** X18. After an import into a collection of which no card is due, the
    first card of the file is the one shown, at any time from the reading
    of the clock that became its [due]. *)
Theorem import_then_pick (auto : bool) (files : option File)
  (cards cards' : list Card) (now : Z) (s : Session) :
  handleFileImport auto files cards = Ok cards' ->
  Forall (fun c => (now < dueOrZero c)%Z) cards ->
  List.length cards < List.length cards' ->
  (clock 1 <= now)%Z ->
  exists c,
    nth_error cards' (List.length cards) = Some c
    /\ due c = DueAt (clock 1)
    /\ pickNextCard now cards' s = mkSession (Some c) false.
Proof.
  intros H Hnone Hlen Hnow.
  destruct (handleFileImport_inv _ _ _ _ H)
    as [-> | (file & rows & newCards & _ & _ & Hi & ->)]; [lia |].
  destruct newCards as [| c more].
  { rewrite app_nil_r in Hlen. lia. }
  exists c.
  destruct (importRows_nth auto rows 0 0 _ Hi 0 c eq_refl)
    as (_ & _ & _ & Hd).
  cbn in Hd. split; [| split; [exact Hd |]].
  - rewrite nth_error_app2, Nat.sub_diag by lia. reflexivity.
  - apply pickNextCard_at; [| exact Hnone].
    unfold dueOrZero. now rewrite Hd.
Qed.

Lemma toStr_scalars (cells : list jsval) :
  Forall scalar cells ->
  toStr (JArr cells) = Ok (join "," (map cellOf cells)).
Proof.
  intros Hall. cbn [toStr].
  assert (H : (fix each (l : list jsval) : result (list string) :=
                 match l with
                 | [] => Ok []
                 | x :: rest =>
                     s <- match x with
                          | JUndefined | JNull => Ok ""
                          | _ => toStr x
                          end ;;
                     ss <- each rest ;;
                     Ok (s :: ss)
                 end) cells = Ok (map cellOf cells)).
  { induction Hall as [| x cells Hx _ IH]; [reflexivity |].
    rewrite IH. destruct x as [| | [|] | | | |]; try contradiction;
      reflexivity. }
  now rewrite H.
Qed.

Lemma nullish_scalar (v : jsval) :
  scalar v -> scalar (nullish v (JStr "")).
Proof. now destruct v. Qed.

Lemma cellsOf_scalar (c : Card) : plainCard c -> Forall scalar (cellsOf c).
Proof.
  intros (Hi & Ha & Hm & He). unfold cellsOf, headers.
  cbn [map field String.eqb Ascii.eqb Bool.eqb].
  repeat constructor; try now apply nullish_scalar.
  now destruct (due c).
Qed.

Lemma exportRow_plain (c : Card) :
  plainCard c -> exportRow c = Ok (join "," (map cellOf (cellsOf c))).
Proof.
  intros Hc. unfold exportRow. fold (cellsOf c).
  now apply toStr_scalars, cellsOf_scalar.
Qed.

Lemma exportRows_plain (cards : list Card) :
  Forall plainCard cards ->
  exportRows cards
  = Ok (map (fun c => join "," (map cellOf (cellsOf c))) cards).
Proof.
  induction 1 as [| c cards Hc _ IH]; [reflexivity |].
  cbn [exportRows map]. now rewrite (exportRow_plain c Hc), IH.
Qed.

(** X24. For a collection whose optional fields are strings, numbers,
    booleans, [null] or [undefined], the text [csv] that the export builds
    is the header line followed by one line per card, the cells of the
    card joined by commas, a [null] or [undefined] cell being empty. *)
Theorem exportCSV_plain (cards : list Card) :
  Forall plainCard cards ->
  exportCSV cards
  = Ok (join (String LF "")
          ("word,ipa,audio,meaning,example,ease,interval,due"
           :: map (fun c => join "," (map cellOf (cellsOf c))) cards)).
Proof.
  intros Hall. unfold exportCSV. now rewrite (exportRows_plain cards Hall).
Qed.

Lemma importRows_skip (auto : bool) (rows : list jsval) :
  Forall (fun e => resolvedWord e = Ok "") rows ->
  forall ticks draws, importRows auto rows ticks draws = Ok [].
Proof.
  induction 1 as [| entry rows He _ IH]; intros ticks draws; [reflexivity |].
  cbn [importRows]. unfold importRow. rewrite He. cbn [bind String.eqb fst snd].
  now rewrite IH.
Qed.

(** X26. A CSV file none of whose header names is [word], [Word], [term]
    or [Term] imports nothing: the handler returns the collection it
    found. *)
Theorem handleFileImport_no_word_column (auto : bool) (file : File)
  (txt : string) (cards : list Card) :
  text file = Some txt ->
  endsWith (toLowerCase (name file)) ".json" = false ->
  (forall k, In k wordKeys -> ~ In k (headersOf txt)) ->
  handleFileImport auto (Some file) cards = Ok cards.
Proof.
  intros Ht Hn Hkeys. unfold handleFileImport, readRows. rewrite Ht, Hn.
  rewrite importRows_skip; [cbn [bind]; now rewrite app_nil_r |].
  rewrite parseCSV_unfold. apply Forall_forall. intros row Hrow.
  apply in_map_iff in Hrow. destruct Hrow as (line & <- & _).
  unfold resolvedWord. rewrite rawWord_priority.
  rewrite !fill_other by (apply Hkeys; cbn; tauto).
  reflexivity.
Qed.

End ImportMore.

Lemma handleFileImport_appends_witness :
  exists newCards,
    @handleFileImport Sample.host true
      (Some (mkFile "deck.csv"
               (Some Sample.deck)))
      [Sample.card "old" "" 0]
    = Ok (Sample.card "old" "" 0 :: newCards)
    /\ Forall (@imported Sample.host) newCards.
Proof.
  destruct (@handleFileImport_appends Sample.host true
              (Some (mkFile "deck.csv"
                       (Some Sample.deck)))
              [Sample.card "old" "" 0] _ eq_refl)
    as (newCards & E & Hall & _).
  exists newCards. split; [| exact Hall].
  cbn [app] in E. rewrite <- E. reflexivity.
Defined.

Lemma handleFileImport_csv_total_witness :
  exists newCards,
    @handleFileImport Sample.host false
      (Some (mkFile "deck.csv" (Some Sample.deck)))
      [Sample.card "old" "" 0]
    = Ok (Sample.card "old" "" 0 :: newCards)
    /\ map word newCards = ["cat"; "dog"]
    /\ List.length newCards <= 3.
Proof.
  destruct (@handleFileImport_csv_total Sample.host false
              (mkFile "deck.csv" (Some Sample.deck)) Sample.deck
              [Sample.card "old" "" 0] eq_refl eq_refl)
    as (newCards & E & Hl).
  exists newCards. split; [exact E |]. split; [| exact Hl].
  assert (H : @handleFileImport Sample.host false
                (Some (mkFile "deck.csv" (Some Sample.deck)))
                [Sample.card "old" "" 0]
              = Ok [Sample.card "old" "" 0;
                    mkCard "1700000000000-0.0625" "cat" (JStr "") (JStr "")
                           (JStr "") (JStr "") 2.5 0 (DueAt 1700000000001);
                    mkCard "1700000000002-0.1875" "dog" (JStr "") (JStr "")
                           (JStr "") (JStr "") 2.5 0 (DueAt 1700000000003)])
    by reflexivity.
  rewrite E in H. cbn [app] in H. injection H as ->. reflexivity.
Defined.

Lemma handleFileImport_json_not_array_witness :
  @handleFileImport Sample.host true
    (Some (mkFile "deck.json" (Some "null"))) [Sample.card "cat" "" 0]
  = Ok [Sample.card "cat" "" 0].
Proof.
  apply (@handleFileImport_json_not_array Sample.host true
           (mkFile "deck.json" (Some "null")) "null" JNull);
    try reflexivity.
  intros items. discriminate.
Defined.

Lemma handleFileImport_null_row_witness :
  @handleFileImport Sample.arrayHost false
    (Some (mkFile "deck.json" (Some "[1,null]"))) [Sample.card "cat" "" 0]
  = Throw.
Proof.
  apply (@handleFileImport_null_row Sample.arrayHost false
           (mkFile "deck.json" (Some "[1,null]")) "[1,null]"
           [JNum 1; JNull]); try reflexivity.
  cbn. tauto.
Defined.

Lemma importRows_offline_witness :
  @importRows Sample.offlineHost true [Sample.row "cat"; Sample.row "dog"]
              0 0
  = @importRows Sample.offlineHost false [Sample.row "cat"; Sample.row "dog"]
                0 0.
Proof.
  apply (@importRows_offline Sample.offlineHost).
  intros w. reflexivity.
Defined.

Lemma import_then_pick_witness :
  exists cards' c,
    @handleFileImport Sample.host false
      (Some (mkFile "deck.csv" (Some Sample.deck)))
      [Sample.card "old" "" 1800000000000]
    = Ok cards'
    /\ pickNextCard 1700000000005 cards' (mkSession None true)
       = mkSession (Some c) false.
Proof.
  assert (Hrun : exists cards',
            @handleFileImport Sample.host false
              (Some (mkFile "deck.csv" (Some Sample.deck)))
              [Sample.card "old" "" 1800000000000]
            = Ok cards'
            /\ List.length cards' = 3).
  { eexists. split; reflexivity. }
  destruct Hrun as (cards' & Hrun & Hlen).
  assert (Hnone : Forall (fun c => (1700000000005 < dueOrZero c)%Z)
                         [Sample.card "old" "" 1800000000000]).
  { repeat constructor. }
  assert (Hmore : List.length [Sample.card "old" "" 1800000000000]
                  < List.length cards') by (rewrite Hlen; cbn; lia).
  assert (Hnow : (@clock Sample.host 1 <= 1700000000005)%Z) by (cbn; lia).
  destruct (@import_then_pick Sample.host false _ _ _ 1700000000005
              (mkSession None true) Hrun Hnone Hmore Hnow)
    as (c & _ & _ & Hpick).
  exists cards', c. split; [exact Hrun | exact Hpick].
Defined.

(** * Further properties of the dictionary lookup *)

Section LookupMore.

Context {host : Host}.

Lemma bind_ok {A B : Type} (m : result A) (k : A -> result B) (b : B) :
  bind m k = Ok b -> exists a, m = Ok a /\ k a = Ok b.
Proof. destruct m as [a |]; [| discriminate]. intros H. now exists a. Qed.

Lemma text_or_empty (x : jsval) (k : string) (v : jsval) :
  (if truthy x
   then t <- get x k ;; Ok (if is_string t then t else JStr "")
   else Ok (JStr "")) = Ok v ->
  is_string v = true.
Proof.
  destruct (truthy x); [| now intros [= <-]].
  intros H. apply bind_ok in H. destruct H as (t & _ & [= <-]).
  now destruct (is_string t) eqn:E.
Qed.

Lemma lookup_response (w : string) (data : jsval) :
  fetch w = Response true (Some data) -> lookup w = readEntry data.
Proof. unfold lookup. now intros ->. Qed.

Lemma readEntry_shape (data : jsval) (e : Entry) :
  readEntry data = Ok e ->
  is_string (entry_ipa e) = true
  /\ is_string (entry_audio e) = true
  /\ (entry_meaning e = JStr "" \/ truthy (entry_meaning e) = true).
Proof.
  unfold readEntry. intros H.
  repeat (apply bind_ok in H; destruct H as (? & ? & H)).
  injection H as <-. cbn [entry_ipa entry_audio entry_meaning].
  match goal with
  | Hs : (if ?b then _ else _) = @Ok (jsval * jsval) ?s,
    Hm : (if ?b' then _ else _) = @Ok jsval ?m |- _ =>
      assert (Ks : is_string (fst s) = true /\ is_string (snd s) = true);
      [ destruct b;
        [ repeat (apply bind_ok in Hs; destruct Hs as (? & ? & Hs));
          injection Hs as <-; cbn [fst snd];
          split; eapply text_or_empty; eassumption
        | injection Hs as <-; now split ]
      | assert (Km : m = JStr "" \/ truthy m = true);
        [ destruct b';
          [ repeat (apply bind_ok in Hm; destruct Hm as (? & ? & Hm));
            match type of Hm with
            | (if ?c then _ else _) = _ =>
                destruct c;
                [ repeat (apply bind_ok in Hm; destruct Hm as (? & ? & Hm));
                  injection Hm as <-;
                  match goal with
                  | |- context [truthy ?d] =>
                      destruct (truthy d) eqn:Ed; [now right | now left]
                  end
                | injection Hm as <-; now left ]
            end
          | injection Hm as <-; now left ]
        | ] ]
  end.
  destruct Ks as [K1 K2]. repeat split; assumption.
Qed.

(** X19. Whatever the response, the [ipa] and the [audio] of a lookup are
    strings, and its [meaning] is the empty string or a truthy value (the
    first definition, which is taken as it comes, string or not). *)
Theorem fetchDictionary_shape (w : string) :
  is_string (entry_ipa (fetchDictionary w)) = true
  /\ is_string (entry_audio (fetchDictionary w)) = true
  /\ (entry_meaning (fetchDictionary w) = JStr ""
      \/ truthy (entry_meaning (fetchDictionary w)) = true).
Proof.
  unfold fetchDictionary. destruct (lookup w) as [e |] eqn:E.
  - unfold lookup in E. destruct (fetch w) as [| ok body]; [discriminate |].
    destruct ok; cbn [negb] in E; [| discriminate].
    destruct body as [data |]; cbn [bind] in E; [| discriminate].
    now apply (readEntry_shape data).
  - cbn. repeat split. now left.
Qed.

(** X20. Only the first entry of the response is read: two responses that
    begin with the same entry give the same lookup. *)
Theorem fetchDictionary_first_entry (w w' : string) (e : jsval)
  (rest rest' : list jsval) :
  fetch w = Response true (Some (JArr (e :: rest))) ->
  fetch w' = Response true (Some (JArr (e :: rest'))) ->
  fetchDictionary w = fetchDictionary w'.
Proof.
  intros H H'. unfold fetchDictionary.
  rewrite (lookup_response _ _ H), (lookup_response _ _ H'). reflexivity.
Qed.

Lemma count_positive (n : nat) : Qle_bool (count (S n)) 0 = false.
Proof. reflexivity. Qed.

Lemma nonempty_array (x : jsval) (items : list jsval) :
  nonempty (JArr (x :: items)) = Ok true.
Proof.
  unfold nonempty, positive. cbn [truthy get String.eqb Ascii.eqb Bool.eqb].
  cbn [bind toNumber List.length]. now rewrite count_positive.
Qed.

(** X21. One malformed part voids the whole lookup: when the first meaning
    of the first entry is [null], the lookup gives the three empty strings,
    whatever phonetics the entry has. *)
Theorem fetchDictionary_null_meaning (w : string) (data entry : jsval)
  (ms : list jsval) :
  fetch w = Response true (Some data) ->
  get data "0" = Ok entry -> truthy entry = true ->
  get entry "meanings" = Ok (JArr (JNull :: ms)) ->
  fetchDictionary w = noEntry.
Proof.
  intros Hf Hd Ht Hm. apply lookup_caught.
  rewrite (lookup_response _ _ Hf). unfold readEntry.
  rewrite Hd. unfold or_else at 1. cbn [bind]. rewrite Ht. cbn [bind].
  destruct (get entry "phonetics") as [ph |]; [| reflexivity]. cbn [bind].
  destruct (nonempty ph) as [b |]; [| reflexivity]. cbn [bind].
  match goal with |- bind ?m _ = _ => destruct m; [| reflexivity] end.
  cbn [bind]. rewrite Hm. cbn [bind]. rewrite nonempty_array.
  reflexivity.
Qed.

Lemma find_objects (k : string) (ps : list (list (string * jsval))) :
  find (JArr (map JObj ps)) k
  = Ok match firstHaving k ps with
       | Some p => JObj p
       | None => JUndefined
       end.
Proof.
  unfold find. induction ps as [| p ps IH]; [reflexivity |].
  cbn [map firstHaving get bind]. destruct (truthy (prop k p)); [reflexivity |].
  exact IH.
Qed.

Lemma sounds_objects (ps : list (list (string * jsval))) :
  (withText <- find (JArr (map JObj ps)) "text" ;;
   withAudio <- find (JArr (map JObj ps)) "audio" ;;
   ipa <- (if truthy withText then
             t <- get withText "text" ;;
             Ok (if is_string t then t else JStr "")
           else Ok (JStr "")) ;;
   audio <- (if truthy withAudio then
               a <- get withAudio "audio" ;;
               Ok (if is_string a then a else JStr "")
             else Ok (JStr "")) ;;
   Ok (ipa, audio))
  = Ok (sound "text" ps, sound "audio" ps).
Proof.
  rewrite !find_objects. unfold sound. cbn [bind].
  destruct (firstHaving "text" ps), (firstHaving "audio" ps); reflexivity.
Qed.

(** X22. From a well-formed response the lookup takes [ipa] and [audio]
    independently, each from the first phonetics item that has one (when
    it is a string), and [meaning] from the first definition of the first
    meaning; an entry without phonetics still gives its meaning. *)
Theorem fetchDictionary_extracts (w : string) (e m d : list (string * jsval))
  (rest ms ds : list jsval) (ps : list (list (string * jsval))) :
  fetch w = Response true (Some (JArr (JObj e :: rest))) ->
  phoneticsOf e ps ->
  prop "meanings" e = JArr (JObj m :: ms) ->
  prop "definitions" m = JArr (JObj d :: ds) ->
  fetchDictionary w
  = mkEntry (sound "text" ps) (sound "audio" ps)
            (if truthy (prop "definition" d) then prop "definition" d
             else JStr "").
Proof.
  intros Hf Hp Hm Hd. unfold fetchDictionary.
  rewrite (lookup_response _ _ Hf). unfold readEntry.
  cbn [get String.eqb Ascii.eqb Bool.eqb nth or_else bind truthy].
  rewrite Hm, nonempty_array. cbn [bind get String.eqb Ascii.eqb Bool.eqb nth].
  rewrite Hd, nonempty_array. cbn [bind get String.eqb Ascii.eqb Bool.eqb nth].
  destruct Hp as [-> | [Hfalse ->]].
  - destruct ps as [| p ps].
    + reflexivity.
    + rewrite (nonempty_array (JObj p) (map JObj ps)
               : nonempty (JArr (map JObj (p :: ps))) = Ok true).
      cbn [bind]. rewrite sounds_objects. reflexivity.
  - unfold nonempty. rewrite Hfalse. reflexivity.
Qed.

End LookupMore.

Lemma fetchDictionary_first_entry_witness :
  @fetchDictionary Sample.widerHost "kitty"
  = @fetchDictionary Sample.widerHost "cat".
Proof.
  exact (@fetchDictionary_first_entry Sample.widerHost "kitty" "cat"
           Sample.catFirst [JObj [("word", JStr "kitty")]] []
           eq_refl eq_refl).
Defined.

Lemma fetchDictionary_null_meaning_witness :
  @fetchDictionary Sample.widerHost "void" = noEntry.
Proof.
  eapply (@fetchDictionary_null_meaning Sample.widerHost "void");
    reflexivity.
Defined.

Lemma fetchDictionary_extracts_witness :
  @fetchDictionary Sample.host "cat"
  = mkEntry (JStr "/kat/") (JStr "https://audio.example/cat.mp3")
            (JStr "A small, furry animal").
Proof.
  rewrite (@fetchDictionary_extracts Sample.host "cat"
             [("word", JStr "cat");
              ("phonetics",
               JArr [JObj [("audio", JStr "")];
                     JObj [("text", JStr "/kat/");
                           ("audio", JStr "https://audio.example/cat.mp3")]]);
              ("meanings",
               JArr [JObj [("partOfSpeech", JStr "noun");
                           ("definitions",
                            JArr [JObj [("definition",
                                         JStr "A small, furry animal")]])]])]
             [("partOfSpeech", JStr "noun");
              ("definitions",
               JArr [JObj [("definition", JStr "A small, furry animal")]])]
             [("definition", JStr "A small, furry animal")]
             [] [] []
             [[("audio", JStr "")];
              [("text", JStr "/kat/");
               ("audio", JStr "https://audio.example/cat.mp3")]]
             eq_refl (or_introl eq_refl) eq_refl eq_refl).
  reflexivity.
Defined.

Lemma exportCSV_plain_witness :
  @exportCSV Sample.host
    [mkCard "id-7" "seven" (JNum 7) JNull (JBool true) JUndefined
            2.5 0 DueAbsent]
  = Ok ("word,ipa,audio,meaning,example,ease,interval,due"
        ++ String Str.LF "seven,7,,true,,2.5,0,")%string.
Proof.
  rewrite (@exportCSV_plain Sample.host); [reflexivity |].
  repeat constructor.
Defined.

Lemma handleFileImport_no_word_column_witness :
  @handleFileImport Sample.host true
    (Some (mkFile "deck.csv"
             (Some ("WORD,meaning" ++ String Str.LF "cat,feline")%string)))
    [Sample.card "old" "" 0]
  = Ok [Sample.card "old" "" 0].
Proof.
  apply (@handleFileImport_no_word_column Sample.host true
           (mkFile "deck.csv"
              (Some ("WORD,meaning" ++ String Str.LF "cat,feline")%string))
           ("WORD,meaning" ++ String Str.LF "cat,feline")%string);
    [reflexivity | reflexivity |].
  intros k Hk [E | [E | []]]; subst k;
    cbn in Hk; destruct Hk as [E | [E | [E | [E | []]]]]; discriminate E.
Defined.
